(** * fastCheckout: the checkout planner and applier of isomorphic-git

    A shallow embedding of [src/commands/fastCheckout.js] (the second part
    of the source bundle [src/src/commands/WORKDIR.js]) and the properties
    of its planner, reducer, aggregator, applier and HEAD updater.

    The JavaScript function is asynchronous and talks to collaborators
    (ref manager, object store, index manager, filesystem, config,
    emitter, console).  It is embedded as a state-and-exception monad over
    an abstract [World]; every call that the function makes to a mutating
    or reporting collaborator is also recorded, in program order, in a
    trace of [Effect]s. *)

From Stdlib Require Import String Ascii ZArith List Bool Lia.
From stdpp Require Import base decidable list strings gmap.
Import ListNotations.
Local Open Scope string_scope.

(** ** JavaScript values

    Plan ops are JavaScript arrays whose elements are strings (method,
    path, oid, mode), booleans (chmod) or, when a field was never
    populated or the array is too short, [undefined]. Index modes are
    numbers. *)

Inductive val : Type :=
| VUndef
| VStr (s : string)
| VNum (n : Z)
| VBool (b : bool).

#[global] Instance val_eq_dec : EqDecision val.
Proof. solve_decision. Defined.

(** [a === b] *)
Definition strict_eq (a b : val) : bool := bool_decide (a = b).

(** [a !== b] *)
Definition strict_ne (a b : val) : bool := negb (strict_eq a b).

(** The truthiness test of [if (v)]. *)
Definition truthy (v : val) : bool :=
  match v with
  | VUndef => false
  | VStr s => negb (String.eqb s "")
  | VNum n => negb (Z.eqb n 0)
  | VBool b => b
  end.

(** Digits of a positive number in base [8], most significant first. *)
Fixpoint octal_pos (fuel : nat) (n : Z) (acc : string) : string :=
  match fuel with
  | O => acc
  | S fuel' =>
      let d := String (ascii_of_nat (48 + Z.to_nat (n mod 8)%Z)) acc in
      if (n <? 8)%Z then d else octal_pos fuel' (n / 8)%Z d
  end.

(** [n.toString(8)] on an integer. *)
Definition toString8 (n : Z) : string :=
  if (n =? 0)%Z then "0"
  else if (n <? 0)%Z then "-" ++ octal_pos (Z.to_nat (Z.log2 (- n)) + 1) (- n)%Z ""
  else octal_pos (Z.to_nat (Z.log2 n) + 1) n "".

(** Digits in base [10], for numbers inside template strings. *)
Fixpoint decimal_pos (fuel : nat) (n : Z) (acc : string) : string :=
  match fuel with
  | O => acc
  | S fuel' =>
      let d := String (ascii_of_nat (48 + Z.to_nat (n mod 10)%Z)) acc in
      if (n <? 10)%Z then d else decimal_pos fuel' (n / 10)%Z d
  end.

Definition toString10 (n : Z) : string :=
  if (n =? 0)%Z then "0"
  else if (n <? 0)%Z then "-" ++ decimal_pos (Z.to_nat (Z.log2 (- n)) + 1) (- n)%Z ""
  else decimal_pos (Z.to_nat (Z.log2 n) + 1) n "".

(** The string a value becomes inside a template literal. *)
Definition to_str (v : val) : string :=
  match v with
  | VUndef => "undefined"
  | VStr s => s
  | VNum n => toString10 n
  | VBool true => "true"
  | VBool false => "false"
  end.

(** [s.startsWith(p)] *)
Definition startsWith (s p : string) : bool := String.prefix p s.

(** [s.replace(pat, '')] with a string pattern: the first occurrence of
    [pat] is removed; an empty pattern matches at position 0. *)
Fixpoint replace_first (fuel : nat) (pat s : string) : string :=
  if String.prefix pat s then
    String.substring (String.length pat) (String.length s - String.length pat) s
  else
    match fuel, s with
    | S fuel', String c s' => String c (replace_first fuel' pat s')
    | _, _ => s
    end.

Definition replace (s pat : string) : string :=
  replace_first (String.length s) pat s.

(** ** Walk entries

    One entry per source ([COMMIT], [WORK], [STAGE]) and path.  [type],
    [mode] and [oid] are loaded on demand by [populateStat] and
    [populateHash]; reading a field that was not loaded gives [undefined]. *)

Inductive EntryType := Tree | Blob | Commit | Special.

#[global] Instance EntryType_eq_dec : EqDecision EntryType.
Proof. solve_decision. Defined.

Definition type_name (t : EntryType) : string :=
  match t with
  | Tree => "tree"
  | Blob => "blob"
  | Commit => "commit"
  | Special => "special"
  end.

Record Entry := mkEntry {
  e_exists : bool;
  fullpath : string;
  (* what the walker loads on demand *)
  src_type : EntryType;
  src_mode : val;
  src_oid : val;
  (* which lazy fields have been loaded *)
  stat_loaded : bool;
  hash_loaded : bool
}.

(** Modelled from the spec: the walker classes ([GitWalkerRepo],
    [GitWalkerFs], [GitWalkerIndex]) are missing from the sources; section
    3 of the spec gives the attributes [exists], [fullpath], [type] and the
    lazily populated [mode], [oid], [stat], and section 4.2 says
    [populateStat] and [populateHash] are idempotent and memoized. *)
Definition populateStat (e : Entry) : Entry :=
  mkEntry (e_exists e) (fullpath e) (src_type e) (src_mode e) (src_oid e)
          true (hash_loaded e).

Definition populateHash (e : Entry) : Entry :=
  mkEntry (e_exists e) (fullpath e) (src_type e) (src_mode e) (src_oid e)
          (stat_loaded e) true.

Definition type (e : Entry) : option EntryType :=
  if stat_loaded e then Some (src_type e) else None.

Definition mode (e : Entry) : val :=
  if stat_loaded e then src_mode e else VUndef.

Definition oid (e : Entry) : val :=
  if hash_loaded e then src_oid e else VUndef.

(** [`${e.type}`] *)
Definition type_str (t : option EntryType) : string :=
  match t with
  | Some t => type_name t
  | None => "undefined"
  end.

(** ** Plan ops: JavaScript arrays [[method, fullpath, oid, mode, chmod]] *)

Definition op := list val.

Definition op_method (o : op) : val := nth 0 o VUndef.
Definition op_fullpath (o : op) : val := nth 1 o VUndef.
Definition op_oid (o : op) : val := nth 2 o VUndef.
Definition op_mode (o : op) : val := nth 3 o VUndef.
Definition op_chmod (o : op) : val := nth 4 o VUndef.

(** [([method]) => method === name] *)
Definition is_method (name : string) (o : op) : bool :=
  strict_eq (op_method o) (VStr name).

(** ** Errors *)

Inductive GitErr : Type :=
| MissingRequiredParameterError (function parameter : string)
| NotImplementedFail (thing : string)
| CheckoutConflictError (filepaths : list val)
| InternalFail (message : string)
| InternalFailList (message : list val)
| CommitNotFetchedError (ref oid : string)
| ReadObjectFail (oid : val)
| OtherError (code : string).

(** [err.code] *)
Definition err_code (e : GitErr) : string :=
  match e with
  | MissingRequiredParameterError _ _ => "MissingRequiredParameterError"
  | NotImplementedFail _ => "NotImplementedFail"
  | CheckoutConflictError _ => "CheckoutConflictError"
  | InternalFail _ => "InternalFail"
  | InternalFailList _ => "InternalFail"
  | CommitNotFetchedError _ _ => "CommitNotFetchedError"
  | ReadObjectFail _ => "ReadObjectFail"
  | OtherError c => c
  end.

(** A thrown error, with the [caller] tag that the outer handler sets. *)
Record Exn := mkExn { err : GitErr; caller : option string }.

Definition new_error (e : GitErr) : Exn := mkExn e None.

Inductive Res (A : Type) : Type :=
| Ok (a : A)
| Throw (e : Exn).
Arguments Ok {A} a.
Arguments Throw {A} e.

(** ** Effects: the calls made to mutating and reporting collaborators *)

Record Stats := mkStats { st_mode : Z; st_size : Z; st_mtime : Z }.

Record Progress := mkProgress {
  phase : string;
  loaded : nat;
  total : option nat   (* [None]: [lengthComputable: false] *)
}.

Inductive LogMsg :=
| LogError (e : Exn)
| LogText (s : string).

Inductive Effect : Type :=
| ConfigSet (gitdir path value : string)
| FsWrite (filepath content : string) (mode : option Z)
| FsWritelink (filepath target : string)
| FsRm (filepath : string)
| FsMkdir (filepath : string)
| FsRmdir (filepath : string)
| IndexAcquire (filepath : string)
| IndexRelease (filepath : string)
| IndexInsert (filepath : val) (stats : Stats) (oid : val)
| IndexDelete (filepath : val)
| Emit (event : string) (payload : Progress)
| ConsoleLog (msg : LogMsg).

(** The effects on the repository (working tree, gitdir, config, index and
    its lock): every effect but a progress event or a console message. *)
Definition is_write (e : Effect) : bool :=
  match e with
  | Emit _ _ | ConsoleLog _ => false
  | _ => true
  end.

Definition writes (t : list Effect) : list Effect := List.filter is_write t.

(** ** Invocation options *)

Record Args := mkArgs {
  dir : string;
  gitdir_opt : option string;     (* default: [join(dir, '.git')] *)
  emitter : bool;                 (* is an emitter plugged in? *)
  emitterPrefix : string;
  remote : string;
  ref : option string;            (* [None]: [undefined] *)
  filepaths : list string;
  pattern : option string;        (* [None]: [null] *)
  noCheckout : bool;
  dryRun : bool
}.

(** ** The merged traversal

    Modelled from the spec: [walkBeta1], [TREE], [WORKDIR] and [STAGE] are
    missing from the sources.  Section 4.2 of the spec: the walker visits
    the union of the three sources, one entry triple per path, children
    in ascending path order. *)
#[warnings="-register-all"]
Inductive WalkTree : Type :=
| WNode (commit workdir stage : Entry) (children : list WalkTree).

(** ** Collaborators *)

(** Pure helpers imported by the source and missing from it
    ([utils/join.js], [utils/patternRoot.js], [globrex],
    [utils/worthWalking.js], [utils/normalizeMode.js]). *)
Record Utils := mkUtils {
  join : string -> string -> string;
  patternRoot : string -> string;
  (* [globrex(pattern, {globstar: true, extended: true}).regex.test(s)] *)
  globrex_test : string -> string -> bool;
  worthWalking : string -> string -> bool;
  normalizeMode : val -> Z
}.

(** The stateful collaborators, over an abstract world.  A read returns a
    result; a mutation returns a result and the next world. *)
Record Collab (World : Type) := mkCollab {
  (* GitRefManager.resolve({ fs, gitdir, ref }) *)
  resolve : World -> string -> string -> Res string;
  (* GitRefManager.expand({ fs, gitdir, ref }) *)
  expand : World -> string -> string -> Res string;
  (* config({ gitdir, fs, path, value }) *)
  config : string -> string -> string -> World -> Res unit * World;
  (* the merged TREE/WORKDIR/STAGE traversal of (dir, gitdir, ref) *)
  walk_trees : World -> string -> string -> string -> Res WalkTree;
  (* readObject({ fs, gitdir, oid }) *)
  readObject : World -> string -> val -> Res string;
  fs_write : string -> string -> option Z -> World -> Res unit * World;
  fs_writelink : string -> string -> World -> Res unit * World;
  fs_rm : string -> World -> Res unit * World;
  fs_mkdir : string -> World -> Res unit * World;
  fs_rmdir : string -> World -> Res unit * World;
  fs_lstat : World -> string -> Res Stats;
  (* index.insert({ filepath, stats, oid }), index.delete({ filepath }) *)
  index_insert : val -> Stats -> val -> World -> World;
  index_delete : val -> World -> World
}.
Arguments resolve {World} _ _ _ _.
Arguments expand {World} _ _ _ _.
Arguments config {World} _ _ _ _ _.
Arguments walk_trees {World} _ _ _ _ _.
Arguments readObject {World} _ _ _ _.
Arguments fs_write {World} _ _ _ _ _.
Arguments fs_writelink {World} _ _ _ _.
Arguments fs_rm {World} _ _ _.
Arguments fs_mkdir {World} _ _ _.
Arguments fs_rmdir {World} _ _ _.
Arguments fs_lstat {World} _ _ _.
Arguments index_insert {World} _ _ _ _ _.
Arguments index_delete {World} _ _ _.

(** ** The monad of the embedding *)

Record St (World : Type) := mkSt {
  world : World;
  trace : list Effect;
  count : nat           (* the [count] variable of the source *)
}.
Arguments mkSt {World} _ _ _.
Arguments world {World} _.
Arguments trace {World} _.
Arguments count {World} _.

Definition M (World A : Type) : Type := St World -> Res A * St World.

Definition ret {World A} (a : A) : M World A := fun s => (Ok a, s).

Definition bind {World A B} (m : M World A) (k : A -> M World B) : M World B :=
  fun s =>
    match m s with
    | (Ok a, s') => k a s'
    | (Throw e, s') => (Throw e, s')
    end.

Definition throw {World A} (e : Exn) : M World A := fun s => (Throw e, s).

(** [try { m } catch (e) { h(e) }] *)
Definition try_catch {World A} (m : M World A) (h : Exn -> M World A) : M World A :=
  fun s =>
    match m s with
    | (Ok a, s') => (Ok a, s')
    | (Throw e, s') => h e s'
    end.

Declare Scope checkout_scope.
Delimit Scope checkout_scope with checkout.
Notation "x <- m ;; k" := (bind m (fun x => k))
  (at level 100, m at next level, right associativity) : checkout_scope.
Notation "m ;; k" := (bind m (fun _ => k))
  (at level 100, right associativity) : checkout_scope.
Local Open Scope checkout_scope.

(** Record an effect in the trace. *)
Definition log {World} (e : Effect) : M World unit :=
  fun s => (Ok tt, mkSt (world s) (trace s ++ [e]) (count s)).

(** A read of the world. *)
Definition read {World A} (f : World -> Res A) : M World A :=
  fun s => (f (world s), s).

(** A mutation of the world, recorded as [e] whether or not it succeeds. *)
Definition mutate {World} (e : Effect) (f : World -> Res unit * World) : M World unit :=
  fun s =>
    let '(r, w') := f (world s) in
    (r, mkSt w' (trace s ++ [e]) (count s)).

(** [++count] *)
Definition incr_count {World} : M World nat :=
  fun s => (Ok (S (count s)), mkSt (world s) (trace s) (S (count s))).

(** [count = n] *)
Definition set_count {World} (n : nat) : M World unit :=
  fun s => (Ok tt, mkSt (world s) (trace s) n).

(** [await Promise.all(tasks)], linearized in list order: every task is
    started and runs to its end; the first rejection, if any, is the
    rejection of the whole. *)
Fixpoint promise_all {World} (tasks : list (M World unit)) : M World unit :=
  match tasks with
  | [] => ret tt
  | t :: rest =>
      fun s =>
        match t s with
        | (Ok _, s') => promise_all rest s'
        | (Throw e, s') => (Throw e, snd (promise_all rest s'))
        end
  end.

(** [await Promise.all(l.map(f))] for tasks that return a value and do not
    reject independently: left to right. *)
Definition mapM {World A B} (f : A -> M World B) : list A -> M World (list B) :=
  fix go (l : list A) : M World (list B) :=
    match l with
    | [] => ret []
    | x :: rest =>
        y <- f x ;;
        ys <- go rest ;;
        ret (y :: ys)
    end.

Definition nl : string := String (ascii_of_nat 10) "".
Definition dquote : string := String (ascii_of_nat 34) "".

(** Modelled from the spec: [utils/flat.js] is missing from the sources;
    section 4.4 of the spec: "Flatten children one level". *)
Definition flat {A} (children : list (list A)) : list A := concat children.

(** Modelled from the spec: [walkBeta1] is missing from the sources.
    Section 4.2 of the spec: a pre-order walk; the walker does not descend
    when [filter] returns false, calls [map] for every retained entry and
    [reduce] post-order with the results of the children; a subtree that
    was not retained contributes no result. *)
Fixpoint walkBeta1 {World}
    (filter : Entry -> Entry -> Entry -> M World bool)
    (map : Entry -> Entry -> Entry -> M World (option op))
    (reduce : option op -> list (list op) -> M World (list op))
    (t : WalkTree) : M World (list op) :=
  match t with
  | WNode commit workdir stage children =>
      keep <- filter commit workdir stage ;;
      if keep : bool then
        parent <- map commit workdir stage ;;
        results <- mapM (walkBeta1 filter map reduce) children ;;
        reduce parent results
      else ret []
  end.

(** ** fastCheckout *)

Section FastCheckout.
Context {World : Type}.
Variable U : Utils.
Variable C : Collab World.

Definition console_log (m : LogMsg) : M World unit := log (ConsoleLog m).

(** [if (emitter) emitter.emit(`${emitterPrefix}progress`,
    { phase, loaded: ++count, ... })] *)
Definition emit_progress (a : Args) (phase : string) (total : option nat) : M World unit :=
  if emitter a then
    n <- incr_count ;;
    log (Emit (emitterPrefix a ++ "progress") (mkProgress phase n total))
  else ret tt.

(** Lines 119-127: [patternPart] and the pattern handed to [globrex]. *)
Definition pattern_setup (pattern : option string) : string * option string :=
  match pattern with
  | Some p =>
      if negb (String.eqb p "") then
        let patternPart := patternRoot U p in
        let p' := if negb (String.eqb patternPart "")
                  then replace p (patternPart ++ "/") else p in
        (patternPart, Some p')
      else ("", None)
  | None => ("", None)
  end.

(** Lines 130-159: resolve [ref]; if that fails, resolve it under the
    remote and set up a remote tracking branch. *)
Definition resolve_oid (a : Args) (gitdir ref : string) : M World string :=
  try_catch
    (read (fun w => resolve C w gitdir ref))
    (fun _ =>
       let remoteRef := remote a ++ "/" ++ ref in
       oid <- read (fun w => resolve C w gitdir remoteRef) ;;
       mutate (ConfigSet gitdir ("branch." ++ ref ++ ".remote") (remote a))
              (config C gitdir ("branch." ++ ref ++ ".remote") (remote a)) ;;
       mutate (ConfigSet gitdir ("branch." ++ ref ++ ".merge") ("refs/heads/" ++ ref))
              (config C gitdir ("branch." ++ ref ++ ".merge") ("refs/heads/" ++ ref)) ;;
       mutate (FsWrite (gitdir ++ "/refs/heads/" ++ ref) (oid ++ nl) None)
              (fs_write C (gitdir ++ "/refs/heads/" ++ ref) (oid ++ nl) None) ;;
       ret oid).

(** Lines 173-176: the [filter] callback. *)
Definition walk_filter (bases : list string) (commit workdir stage : Entry) : M World bool :=
  ret (existsb (fun base => worthWalking U (fullpath commit) base) bases).

(** Lines 180-190: the late filter against file names. *)
Definition pattern_matches (bases : list string) (patternGlobrex : string)
    (commit : Entry) : bool :=
  existsb
    (fun base =>
       let partToMatch := replace (fullpath commit) (base ++ "/") in
       globrex_test U patternGlobrex partToMatch)
    bases.

(** Lines 177-357: the [map] callback, the planner. *)
Definition walk_map (a : Args) (bases : list string) (patternGlobrex : option string)
    (commit workdir stage : Entry) : M World (option op) :=
  if String.eqb (fullpath commit) "." then ret None
  else if match patternGlobrex with
          | Some g => negb (pattern_matches bases g commit)
          | None => false
          end
  then ret None
  else
    emit_progress a "Analyzing workdir" None ;;
    match e_exists stage, e_exists commit, e_exists workdir with
    (* '000' *)
    | false, false, false => ret None
    (* '001' *)
    | false, false, true => ret None
    (* '010' *)
    | false, true, false =>
        let commit := populateStat commit in
        match type commit with
        | Some Tree => ret (Some [VStr "mkdir"; VStr (fullpath commit)])
        | Some Blob =>
            let commit := populateHash commit in
            ret (Some [VStr "create"; VStr (fullpath commit); oid commit; mode commit])
        | Some Commit =>
            console_log (LogError (new_error (NotImplementedFail "submodule support"))) ;;
            ret None
        | _ =>
            ret (Some [VStr "error";
                       VStr ("new entry Unhandled type " ++ type_str (type commit))])
        end
    (* '011' *)
    | false, true, true =>
        let commit := populateStat commit in
        let workdir := populateStat workdir in
        match type commit, type workdir with
        | Some Tree, Some Tree => ret None
        | Some Tree, Some Blob
        | Some Blob, Some Tree => ret (Some [VStr "conflict"; VStr (fullpath commit)])
        | Some Blob, Some Blob =>
            let commit := populateHash commit in
            let workdir := populateHash workdir in
            if strict_ne (oid commit) (oid workdir) then
              ret (Some [VStr "conflict"; VStr (fullpath commit)])
            else if strict_ne (mode commit)
                              (VStr (toString8 (normalizeMode U (mode workdir)))) then
              ret (Some [VStr "conflict"; VStr (fullpath commit)])
            else
              ret (Some [VStr "create-index"; VStr (fullpath commit); oid commit; mode commit])
        | Some Commit, Some Tree =>
            console_log (LogError (new_error (NotImplementedFail "submodule support"))) ;;
            (* no [return] or [break]: control falls into 'commit-blob' *)
            ret (Some [VStr "conflict"; VStr (fullpath commit)])
        | Some Commit, Some Blob =>
            ret (Some [VStr "conflict"; VStr (fullpath commit)])
        | _, _ =>
            ret (Some [VStr "error";
                       VStr ("new entry Unhandled type " ++ type_str (type commit))])
        end
    (* '100' *)
    | true, false, false => ret (Some [VStr "delete-index"; VStr (fullpath stage)])
    (* '101' *)
    | true, false, true =>
        let stage := populateStat stage in
        match type stage with
        | Some Tree => ret (Some [VStr "rmdir"; VStr (fullpath stage)])
        | Some Blob =>
            let stage := populateHash stage in
            let workdir := populateHash workdir in
            if strict_ne (oid stage) (oid workdir) then
              ret (Some [VStr "conflict"; VStr (fullpath stage)])
            else
              ret (Some [VStr "delete"; VStr (fullpath stage)])
        | _ =>
            ret (Some [VStr ("delete entry Unhandled type " ++ type_str (type stage))])
        end
    (* '110' and '111' *)
    | true, true, _ =>
        let commit := populateStat commit in
        let stage := populateStat stage in
        match type stage, type commit with
        | Some Tree, Some Tree => ret None
        | Some Blob, Some Blob =>
            let checked :=
              if e_exists workdir then
                let workdir := populateStat workdir in
                let stage := populateHash stage in
                let commit := populateHash commit in
                let workdir := populateHash workdir in
                (strict_ne (oid workdir) (oid stage) && strict_ne (oid workdir) (oid commit),
                 stage, commit)
              else (false, stage, commit) in
            let '(lost, stage, commit) := checked in
            if lost then ret (Some [VStr "conflict"; VStr (fullpath commit)])
            else if strict_ne (mode commit)
                              (VStr (toString8 (normalizeMode U (mode stage)))) then
              let commit := populateHash commit in
              ret (Some [VStr "update"; VStr (fullpath commit); oid commit; mode commit;
                         VBool true])
            else
              let commit := populateHash commit in
              let stage := populateHash stage in
              if strict_ne (oid commit) (oid stage) then
                ret (Some [VStr "update"; VStr (fullpath commit); oid commit; mode commit;
                           VBool false])
              else ret None
        | Some Tree, Some Blob =>
            ret (Some [VStr "update-dir-to-blob"; VStr (fullpath commit); oid commit])
        | Some Blob, Some Tree =>
            ret (Some [VStr "update-blob-to-tree"; VStr (fullpath commit)])
        | _, _ =>
            ret (Some [VStr "error";
                       VStr ("update entry Unhandled type " ++ type_str (type stage)
                             ++ "-" ++ type_str (type commit))])
        end
    end.

(** Lines 359-370: the [reduce] callback. *)
Definition walk_reduce (parent : option op) (children : list (list op)) : M World (list op) :=
  let children := flat children in
  match parent with
  | None => ret children
  | Some p =>
      if strict_eq (op_method p) (VStr "rmdir") then ret (children ++ [p])%list
      else ret (p :: children)
  end.

(** Lines 170-379: the first pass. *)
Definition analyze (a : Args) (gitdir ref : string) (bases : list string)
    (patternGlobrex : option string) (oid : string) : M World (list op) :=
  try_catch
    (t <- read (fun w => walk_trees C w (dir a) gitdir ref) ;;
     walkBeta1 (walk_filter bases) (walk_map a bases patternGlobrex) walk_reduce t)
    (fun e =>
       match err e with
       | ReadObjectFail o =>
           if strict_eq o (VStr oid)
           then throw (new_error (CommitNotFetchedError ref oid))
           else throw e
       | _ => throw e
       end).

(** Line 382: the paths of the conflict ops. *)
Definition conflicts (ops : list op) : list val :=
  List.map op_fullpath (List.filter (is_method "conflict") ops).

(** Line 388: the messages of the error ops. *)
Definition errors (ops : list op) : list val :=
  List.map op_fullpath (List.filter (is_method "error") ops).

(** Lines 381-391: report conflicts, collect errors. *)
Definition report (ops : list op) : M World unit :=
  if (0 <? length (conflicts ops))%nat then
    throw (new_error (CheckoutConflictError (conflicts ops)))
  else if (0 <? length (errors ops))%nat then
    throw (new_error (InternalFailList (errors ops)))
  else ret tt.

(** Modelled from the spec: [GitIndexManager.acquire] is missing from the
    sources.  Section 6 of the spec: it takes an exclusive lock, yields a
    mutable index and releases on return. *)
Definition acquire (filepath : string) (body : M World unit) : M World unit :=
  log (IndexAcquire filepath) ;;
  body ;;
  log (IndexRelease filepath).

(** Lines 412-427: one deletion of phase 1. *)
Definition delete_task (a : Args) (total : nat) (o : op) : M World unit :=
  let method := op_method o in
  let fullpath := op_fullpath o in
  let filepath := dir a ++ "/" ++ to_str fullpath in
  (if strict_eq method (VStr "delete")
   then mutate (FsRm filepath) (fs_rm C filepath)
   else ret tt) ;;
  mutate (IndexDelete fullpath) (fun w => (Ok tt, index_delete C fullpath w)) ;;
  emit_progress a "Updating workdir" (Some total).

(** Lines 433-453: phase 2, one directory after the other. *)
Fixpoint rmdir_loop (a : Args) (total : nat) (ops : list op) : M World unit :=
  match ops with
  | [] => ret tt
  | o :: rest =>
      let method := op_method o in
      let fullpath := op_fullpath o in
      (if strict_eq method (VStr "rmdir") then
         let filepath := dir a ++ "/" ++ to_str fullpath in
         try_catch
           (mutate (FsRmdir filepath) (fs_rmdir C filepath) ;;
            emit_progress a "Updating workdir" (Some total))
           (fun e =>
              if String.eqb (err_code (err e)) "ENOTEMPTY" then
                console_log (LogText ("Did not delete " ++ to_str fullpath
                                      ++ " because directory is not empty"))
              else throw e)
       else ret tt) ;;
      rmdir_loop a total rest
  end.

(** Lines 456-468: one directory creation of phase 3. *)
Definition mkdir_task (a : Args) (total : nat) (o : op) : M World unit :=
  let fullpath := op_fullpath o in
  let filepath := dir a ++ "/" ++ to_str fullpath in
  mutate (FsMkdir filepath) (fs_mkdir C filepath) ;;
  emit_progress a "Updating workdir" (Some total).

(** Lines 480-529: one create, create-index or update of phase 4. *)
Definition write_task (a : Args) (gitdir : string) (total : nat) (o : op) : M World unit :=
  let method := op_method o in
  let fullpath := op_fullpath o in
  let oid := op_oid o in
  let mode := op_mode o in
  let chmod := op_chmod o in
  let filepath := dir a ++ "/" ++ to_str fullpath in
  try_catch
    ((if strict_ne method (VStr "create-index") then
        object <- read (fun w => readObject C w gitdir oid) ;;
        (if truthy chmod
         then mutate (FsRm filepath) (fs_rm C filepath)
         else ret tt) ;;
        if strict_eq mode (VStr "100644") then
          mutate (FsWrite filepath object None) (fs_write C filepath object None)
        else if strict_eq mode (VStr "100755") then
          mutate (FsWrite filepath object (Some 511%Z))
                 (fs_write C filepath object (Some 511%Z))
        else if strict_eq mode (VStr "120000") then
          mutate (FsWritelink filepath object) (fs_writelink C filepath object)
        else
          throw (new_error (InternalFail
            ("Invalid mode " ++ dquote ++ to_str mode ++ dquote
             ++ " detected in blob " ++ to_str oid)))
      else ret tt) ;;
     stats <- read (fun w => fs_lstat C w filepath) ;;
     let stats :=
       if strict_eq mode (VStr "100755")
       then mkStats 493%Z (st_size stats) (st_mtime stats)
       else stats in
     mutate (IndexInsert fullpath stats oid)
            (fun w => (Ok tt, index_insert C fullpath stats oid w)) ;;
     emit_progress a "Updating workdir" (Some total))
    (fun e => console_log (LogError e)).

(** Lines 404-533: the four phases of the second pass. *)
Definition apply_phases (a : Args) (gitdir : string) (total : nat) (ops : list op)
  : M World unit :=
  acquire (gitdir ++ "/index")
    (promise_all
       (List.map (delete_task a total)
          (List.filter (fun o => is_method "delete" o || is_method "delete-index" o) ops))) ;;
  rmdir_loop a total ops ;;
  promise_all
    (List.map (mkdir_task a total) (List.filter (is_method "mkdir") ops)) ;;
  acquire (gitdir ++ "/index")
    (promise_all
       (List.map (write_task a gitdir total)
          (List.filter
             (fun o => is_method "create" o || is_method "create-index" o
                       || is_method "update" o) ops))).

(** Lines 398-533: the second pass. *)
Definition apply_plan (a : Args) (gitdir : string) (ops : list op) : M World unit :=
  set_count 0 ;;
  let total := length ops in
  apply_phases a gitdir total ops.

(** Lines 166-534: the body of [if (!noCheckout && HEAD !== oid)].
    [Some ops] is the early [return ops] of a dry run. *)
Definition update_workdir (a : Args) (gitdir ref : string) (bases : list string)
    (patternGlobrex : option string) (oid : string) : M World (option (list op)) :=
  ops <- analyze a gitdir ref bases patternGlobrex oid ;;
  report ops ;;
  if dryRun a then ret (Some ops)
  else
    apply_plan a gitdir ops ;;
    ret None.

(** Lines 536-539: update HEAD. *)
Definition update_HEAD (gitdir ref oid : string) : M World unit :=
  fullRef <- read (fun w => expand C w gitdir ref) ;;
  let content := if startsWith fullRef "refs/heads" then "ref: " ++ fullRef else oid in
  mutate (FsWrite (gitdir ++ "/HEAD") (content ++ nl) None)
         (fs_write C (gitdir ++ "/HEAD") (content ++ nl) None).

(** [gitdir = join(dir, '.git')] unless given. *)
Definition gitdir_of (a : Args) : string :=
  match gitdir_opt a with
  | Some g => g
  | None => join U (dir a) ".git"
  end.

(** Lines 97-544.  The result is [Some ops] when the plan is returned (dry
    run) and [None] when the function returns nothing. *)
Definition fastCheckout (a : Args) : M World (option (list op)) :=
  let gitdir := gitdir_of a in
  try_catch
    (match ref a with
     | None =>
         throw (new_error (MissingRequiredParameterError "checkout" "ref"))
     | Some ref =>
         let '(patternPart, patternGlobrex) := pattern_setup (pattern a) in
         let bases := List.map (fun filepath => join U filepath patternPart) (filepaths a) in
         oid <- resolve_oid a gitdir ref ;;
         HEAD <- read (fun w => resolve C w gitdir "HEAD") ;;
         set_count 0 ;;
         returned <-
           (if negb (noCheckout a) && negb (String.eqb HEAD oid)
            then update_workdir a gitdir ref bases patternGlobrex oid
            else ret None) ;;
         match returned with
         | Some ops => ret (Some ops)
         | None =>
             update_HEAD gitdir ref oid ;;
             ret None
         end
     end)
    (fun e => throw (mkExn (err e) (Some "git.checkout"))).

End FastCheckout.

(** ** A small in-memory repository

    Concrete collaborators, used to run the embedding on explicit inputs.
    Files (working tree and gitdir alike) are a finite map from path to
    content and mode; the config and the index are finite maps too. *)

Module Repo.

Record World := mkWorld {
  files : gmap string (string * Z);
  cfg : gmap string string;
  index : gmap string (Stats * val);
  objects : gmap string string;
  (* what the three walkers yield for the ref being checked out *)
  entries : WalkTree
}.

(** Modelled from the spec: [utils/normalizeMode.js] is missing from the
    sources.  Section 3 of the spec: a regular file becomes [100644], a
    file with an executable bit [100755], a symbolic link [120000], a
    directory [040000]; the permission bits of anything but a regular
    file are cleared. *)
Definition normalizeMode (mode : val) : Z :=
  match mode with
  | VNum mode =>
      let type := (if 0 <? mode then Z.shiftr mode 12 else 0)%Z in
      let type := (if (type =? 4) || (type =? 8) || (type =? 10) || (type =? 14)
                   then type else 8)%Z in
      let permissions := (if Z.land (Z.land mode 511) 73 =? 0 then 420 else 493)%Z in
      let permissions := (if type =? 8 then permissions else 0)%Z in
      (Z.shiftl type 12 + permissions)%Z
  | _ => 33188%Z
  end.

(** Modelled from the spec: [utils/join.js] is missing; paths are joined
    with [/], and [.] is the neutral path. *)
Definition join (a b : string) : string :=
  if String.eqb a "." then b
  else if String.eqb b "." then a
  else if String.eqb b "" then a
  else a ++ "/" ++ b.

(** Modelled from the spec: [utils/worthWalking.js] is missing; section
    4.1: a path is walked when it is a base, an ancestor of a base or a
    descendant of one. *)
Definition worthWalking (filepath root : string) : bool :=
  String.eqb filepath "." || String.eqb root "." || String.eqb root ""
  || String.eqb filepath root
  || String.prefix (root ++ "/") filepath
  || String.prefix (filepath ++ "/") root.

(** A stand-in for [patternRoot] and [globrex]: no literal root, and a
    pattern language of one wildcard, [*] alone, which matches anything;
    any other pattern matches only itself. *)
Definition utils : Utils :=
  mkUtils join (fun _ => "")
          (fun pattern s => String.eqb pattern "*" || String.eqb pattern s)
          worthWalking normalizeMode.

Definition strip_nl (s : string) : string :=
  match String.index 0 nl s with
  | Some i => String.substring 0 i s
  | None => s
  end.

(** Modelled from the spec: [GitRefManager] is missing from the sources.
    Glossary: [HEAD] holds either a symbolic ref [ref: refs/heads/<name>]
    or an oid; a short ref is looked up under the usual prefixes. *)
Definition refpaths (ref : string) : list string :=
  [ref; "refs/" ++ ref; "refs/tags/" ++ ref; "refs/heads/" ++ ref;
   "refs/remotes/" ++ ref; "refs/remotes/" ++ ref ++ "/HEAD"].

Definition expand (w : World) (gitdir ref : string) : Res string :=
  match List.filter (fun p => bool_decide (is_Some (files w !! (gitdir ++ "/" ++ p))))
                    (refpaths ref) with
  | p :: _ => Ok p
  | [] => Throw (new_error (OtherError "ExpandRefError"))
  end.

Fixpoint resolve_depth (depth : nat) (w : World) (gitdir ref : string) : Res string :=
  match expand w gitdir ref with
  | Ok p =>
      match files w !! (gitdir ++ "/" ++ p) with
      | Some (content, _) =>
          if String.prefix "ref: " content then
            match depth with
            | S d =>
                resolve_depth d w gitdir
                  (strip_nl (String.substring 5 (String.length content - 5) content))
            | O => Throw (new_error (OtherError "ResolveRefError"))
            end
          else Ok (strip_nl content)
      | None => Throw (new_error (OtherError "ResolveRefError"))
      end
  | Throw _ => Throw (new_error (OtherError "ResolveRefError"))
  end.

Definition resolve (w : World) (gitdir ref : string) : Res string :=
  resolve_depth 5 w gitdir ref.

Definition set_files (w : World) (f : gmap string (string * Z)) : World :=
  mkWorld f (cfg w) (index w) (objects w) (entries w).

Definition fs_write (filepath content : string) (mode : option Z) (w : World)
  : Res unit * World :=
  let m := match mode with
           | Some m => Z.lor 32768 m
           | None => 33188%Z
           end in
  (Ok tt, set_files w (<[filepath := (content, m)]> (files w))).

Definition fs_writelink (filepath target : string) (w : World) : Res unit * World :=
  (Ok tt, set_files w (<[filepath := (target, 40960%Z)]> (files w))).

Definition fs_rm (filepath : string) (w : World) : Res unit * World :=
  (Ok tt, set_files w (delete filepath (files w))).

Definition fs_mkdir (filepath : string) (w : World) : Res unit * World := (Ok tt, w).

Definition fs_rmdir (filepath : string) (w : World) : Res unit * World :=
  if bool_decide (map_Forall (fun p _ => String.prefix (filepath ++ "/") p = false) (files w))
  then (Ok tt, w)
  else (Throw (new_error (OtherError "ENOTEMPTY")), w).

Definition fs_lstat (w : World) (filepath : string) : Res Stats :=
  match files w !! filepath with
  | Some (content, m) => Ok (mkStats m (Z.of_nat (String.length content)) 0)
  | None => Throw (new_error (OtherError "ENOENT"))
  end.

Definition readObject (w : World) (gitdir : string) (oid : val) : Res string :=
  match oid with
  | VStr o =>
      match objects w !! o with
      | Some bytes => Ok bytes
      | None => Throw (new_error (ReadObjectFail oid))
      end
  | _ => Throw (new_error (ReadObjectFail oid))
  end.

Definition config (gitdir path value : string) (w : World) : Res unit * World :=
  (Ok tt, mkWorld (files w) (<[path := value]> (cfg w)) (index w) (objects w) (entries w)).

Definition index_insert (filepath : val) (stats : Stats) (oid : val) (w : World) : World :=
  mkWorld (files w) (cfg w) (<[to_str filepath := (stats, oid)]> (index w))
          (objects w) (entries w).

Definition index_delete (filepath : val) (w : World) : World :=
  mkWorld (files w) (cfg w) (delete (to_str filepath) (index w)) (objects w) (entries w).

Definition collab : Collab World :=
  mkCollab World resolve expand config
    (fun w _ _ _ => Ok (entries w))
    readObject fs_write fs_writelink fs_rm fs_mkdir fs_rmdir fs_lstat
    index_insert index_delete.

Definition start (w : World) : St World := mkSt w [] 0.

(** An entry that is absent from its source. *)
Definition absent (path : string) : Entry :=
  mkEntry false path Special VUndef VUndef false false.

(** An entry present in its source, with nothing loaded yet. *)
Definition present (path : string) (t : EntryType) (mode oid : val) : Entry :=
  mkEntry true path t mode oid false false.

Definition default_args (ref : string) : Args :=
  mkArgs "/w" None false "" "origin" (Some ref) ["."] None false false.

End Repo.

(** ** Statements of the specification, in its own words *)

(** An entry triple reaches the decision table of the planner when it is
    not the root and passes the late pattern filter (section 4.1). *)
Definition reaches_table (U : Utils) (bases : list string)
    (patternGlobrex : option string) (commit : Entry) : Prop :=
  fullpath commit <> "." /\
  match patternGlobrex with
  | Some g => pattern_matches U bases g commit = true
  | None => True
  end.

(** Section 4.3.4 of the spec, case [blob-blob]: the workdir entry, when
    it exists, must carry the oid of the stage or of the commit. *)
Definition local_edits_lost (commit workdir stage : Entry) : Prop :=
  e_exists workdir = true /\
  src_oid workdir <> src_oid stage /\
  src_oid workdir <> src_oid commit.

(** The state in which [map] leaves the walk after its progress event. *)
Definition after_progress {World} (a : Args) (s : St World) : St World :=
  if emitter a then
    mkSt (world s)
         (trace s ++ [Emit (emitterPrefix a ++ "progress")
                           (mkProgress "Analyzing workdir" (S (count s)) None)])
         (S (count s))
  else s.

(** The diagnostic logged for a gitlink. *)
Definition submodule_diagnostic : Effect :=
  ConsoleLog (LogError (new_error (NotImplementedFail "submodule support"))).

(** The methods that the aggregator and the applier look for. *)
Definition recognized : list string :=
  ["mkdir"; "rmdir"; "create"; "create-index"; "update"; "delete";
   "delete-index"; "conflict"; "error"].






(** Two states between which nothing was written: same world, same
    writes in the trace. *)
Definition quiet {World} (s s' : St World) : Prop :=
  world s' = world s /\ writes (trace s') = writes (trace s).

(** The ops that name a path to create, write or remove. *)
Definition pathful (o : op) : Prop :=
  In (op_method o) [VStr "mkdir"; VStr "rmdir"; VStr "create"; VStr "delete"].

(** ** Well-formed traversals and the order of a plan *)

Definition node_path (t : WalkTree) : string :=
  match t with
  | WNode commit _ _ _ => fullpath commit
  end.

(** Modelled from the spec: glossary, "Fullpath": a path relative to the
    working-tree root, with [/] separators; [.] is the root entry. *)
Definition child_path (parent name : string) : string :=
  if String.eqb parent "." then name else parent ++ "/" ++ name.

Definition is_slash (c : ascii) : bool := Ascii.eqb c "/"%char.

Fixpoint has_slash (s : string) : bool :=
  match s with
  | EmptyString => false
  | String c s' => is_slash c || has_slash s'
  end.

(** The name of a directory entry: not [.], no separator. *)
Definition valid_name (n : string) : bool :=
  negb (String.eqb n ".") && negb (has_slash n).

(** The last component of the path of a child. *)
Definition name_of (parent path : string) : string :=
  if String.eqb parent "." then path
  else String.substring (String.length parent + 1)
         (String.length path - (String.length parent + 1)) path.

Definition is_child_of (parent : string) (t : WalkTree) : bool :=
  String.eqb (node_path t) (child_path parent (name_of parent (node_path t)))
  && valid_name (name_of parent (node_path t)).

(** Section 3 of the spec, invariants: the three entries of a triple
    share their path; section 4.2: the children of a directory are its
    entries, one triple per name. *)
Fixpoint wf_walk (t : WalkTree) : bool :=
  match t with
  | WNode commit workdir stage children =>
      String.eqb (fullpath workdir) (fullpath commit)
      && String.eqb (fullpath stage) (fullpath commit)
      && forallb (is_child_of (fullpath commit)) children
      && bool_decide (NoDup (List.map node_path children))
      && forallb wf_walk children
  end.

(** [q] is [r] or lies under it. *)
Definition within (r q : string) : Prop :=
  r = "." \/ q = r \/ exists rest, q = r ++ "/" ++ rest.

(** A pathful op names a path within [r]. *)
Definition scope (r : string) (o : op) : Prop :=
  pathful o -> exists q, op_fullpath o = VStr q /\ within r q.

(** [must_precede x y]: the pairs of section 8, property 5, of the spec. *)
Inductive mkdir_create : op -> op -> Prop :=
| mkdir_create_intro (P Q : string) (oid mode : val) :
    mkdir_create [VStr "mkdir"; VStr P]
                 [VStr "create"; VStr (P ++ "/" ++ Q); oid; mode].

Inductive delete_rmdir : op -> op -> Prop :=
| delete_rmdir_intro (P Q : string) :
    delete_rmdir [VStr "delete"; VStr (P ++ "/" ++ Q)]
                 [VStr "rmdir"; VStr P].

(** Every occurrence of [x] in the plan comes before every occurrence of
    [y], for all [x] and [y] related by [R]. *)
Definition ordered (R : op -> op -> Prop) (ops : list op) : Prop :=
  forall (i j : nat) (x y : op),
    ops !! i = Some x -> ops !! j = Some y -> R x y -> (i < j)%nat.

(** What [reduce] computes. *)
Definition reduced (parent : option op) (children : list (list op)) : list op :=
  match parent with
  | None => flat children
  | Some p =>
      if strict_eq (op_method p) (VStr "rmdir")
      then (flat children ++ [p])%list
      else p :: flat children
  end.

(** What is known of the result [r] of [map] on a triple. *)
Definition map_result {World} (U : Utils) (a : Args) (bases : list string)
    (g : option string) (commit workdir stage : Entry) (r : option op) : Prop :=
  (forall st : St World, exists st',
      walk_map U a bases g commit workdir stage st = (Ok r, st') /\ quiet st st') /\
  (forall o, r = Some o ->
     fullpath commit <> "." /\
     (pathful o ->
      op_fullpath o = VStr (fullpath commit) \/ op_fullpath o = VStr (fullpath stage))).

Definition plan_inv (t : WalkTree) (ops : list op) : Prop :=
  Forall (scope (node_path t)) ops /\
  ordered mkdir_create ops /\
  ordered delete_rmdir ops.

(** Two ops one of whose paths lies under the other's. *)
Definition nested (x y : op) : Prop :=
  pathful x /\ pathful y /\
  exists p q rest,
    op_fullpath x = VStr p /\ op_fullpath y = VStr q /\
    (q = p ++ "/" ++ rest \/ p = q ++ "/" ++ rest).

(** ** The operation after ref resolution *)

(** Line 128: [bases]. *)
Definition bases_of (U : Utils) (a : Args) : list string :=
  List.map (fun filepath => join U filepath (fst (pattern_setup U (pattern a))))
           (filepaths a).

(** Lines 119-127: [patternGlobrex]. *)
Definition globrex_of (U : Utils) (a : Args) : option string :=
  snd (pattern_setup U (pattern a)).

(** The outer handler of lines 540-543. *)
Definition tagged {World A} (m : M World A) : M World A :=
  try_catch m (fun e => throw (mkExn (err e) (Some "git.checkout"))).

(** The error as the caller sees it. *)
Definition checkout_error (e : GitErr) : Exn := mkExn e (Some "git.checkout").

(** Lines 165-539, once [oid] and [HEAD] are resolved. *)
Definition after_resolve {World} (U : Utils) (C : Collab World) (a : Args)
    (ref oid HEAD : string) : M World (option (list op)) :=
  (returned <-
     (if negb (noCheckout a) && negb (String.eqb HEAD oid)
      then update_workdir U C a (gitdir_of U a) ref (bases_of U a) (globrex_of U a) oid
      else ret None) ;;
   match returned with
   | Some ops => ret (Some ops)
   | None => update_HEAD C (gitdir_of U a) ref oid ;; ret None
   end)%checkout.

(** The state in which the walk starts: [count = 0]. *)
Definition counting_from_zero {World} (s : St World) : St World :=
  mkSt (world s) (trace s) 0.

(** Section 4.7 of the spec: what is written to HEAD. *)
Definition head_content (fullRef oid : string) : string :=
  (if startsWith fullRef "refs/heads" then "ref: " ++ fullRef else oid) ++ nl.

Definition head_write (gitdir fullRef oid : string) : Effect :=
  FsWrite (gitdir ++ "/HEAD") (head_content fullRef oid) None.

(** What may follow a name inside a path: nothing, or a separator. *)
Definition name_end (t : string) : Prop := t = "" \/ exists rest, t = "/" ++ rest.

(** ** Concrete inputs *)

Module Inputs.
Import Repo.

Definition oidA : string := "aaaaaaaaaaaaaaaaaaaaaaaaaaaaaaaaaaaaaaaa".
Definition oidB : string := "bbbbbbbbbbbbbbbbbbbbbbbbbbbbbbbbbbbbbbbb".
Definition oidC : string := "cccccccccccccccccccccccccccccccccccccccc".

Definition root_only : WalkTree :=
  WNode (present "." Tree (VStr "040000") VUndef)
        (present "." Tree (VNum 16877) VUndef)
        (present "." Tree VUndef VUndef) [].

(** A repository whose HEAD is the branch [master], with a second branch
    [develop] at the same commit and a branch [topic] at another. *)
Definition two_branches (t : WalkTree) : World :=
  mkWorld
    (list_to_map
       [("/w/.git/HEAD", ("ref: refs/heads/master" ++ nl, 33188%Z));
        ("/w/.git/refs/heads/master", (oidA ++ nl, 33188%Z));
        ("/w/.git/refs/heads/develop", (oidA ++ nl, 33188%Z));
        ("/w/.git/refs/heads/topic", (oidB ++ nl, 33188%Z));
        ("/w/.git/refs/remotes/origin/feature", (oidB ++ nl, 33188%Z))])
    ∅ ∅
    (list_to_map [(oidA, "alpha"); (oidB, "beta"); (oidC, "hello")])
    t.

(** A file modified in the commit, the stage and the working tree. *)
Definition modified_commit : Entry := present "a.txt" Blob (VStr "100644") (VStr oidB).
Definition modified_stage : Entry := present "a.txt" Blob (VNum 33188) (VStr oidA).
Definition modified_workdir : Entry := present "a.txt" Blob (VNum 33188) (VStr oidC).

(** A gitlink in the commit where the working tree has a directory. *)
Definition gitlink_commit : Entry := present "sub" Commit (VStr "160000") (VStr oidB).
Definition gitlink_workdir : Entry := present "sub" Tree (VNum 16877) VUndef.

(** A gitlink in the stage that the commit no longer has. *)
Definition gitlink_stage : Entry := present "sub" Commit (VNum 57344) (VStr oidA).

(** A commit that adds [a] and [d/b] while the stage and the working tree
    still hold [old/x], which the commit no longer has. *)
Definition fresh_and_stale : WalkTree :=
  WNode (present "." Tree (VStr "040000") VUndef)
        (present "." Tree (VNum 16877) VUndef)
        (present "." Tree VUndef VUndef)
    [WNode (present "a" Blob (VStr "100644") (VStr oidA)) (absent "a") (absent "a") [];
     WNode (present "d" Tree (VStr "040000") VUndef) (absent "d") (absent "d")
       [WNode (present "d/b" Blob (VStr "100755") (VStr oidB))
              (absent "d/b") (absent "d/b") []];
     WNode (absent "old")
           (present "old" Tree (VNum 16877) VUndef)
           (present "old" Tree VUndef VUndef)
       [WNode (absent "old/x")
              (present "old/x" Blob (VNum 33188) (VStr oidC))
              (present "old/x" Blob (VNum 33188) (VStr oidC)) []]].

(** The same working tree with a local edit of [old/x]. *)
Definition dirty : WalkTree :=
  WNode (present "." Tree (VStr "040000") VUndef)
        (present "." Tree (VNum 16877) VUndef)
        (present "." Tree VUndef VUndef)
    [WNode (present "a" Blob (VStr "100644") (VStr oidA)) (absent "a") (absent "a") [];
     WNode (absent "old")
           (present "old" Tree (VNum 16877) VUndef)
           (present "old" Tree VUndef VUndef)
       [WNode (absent "old/x")
              (present "old/x" Blob (VNum 33188) (VStr oidA))
              (present "old/x" Blob (VNum 33188) (VStr oidC)) []]].


(** A dry run of [feature], which exists only as [origin/feature]. *)
Definition dry_run_feature : Args :=
  mkArgs "/w" None false "" "origin" (Some "feature") ["."] None false true.

(** A dry run of [topic]. *)
Definition dry_run_topic : Args :=
  mkArgs "/w" None false "" "origin" (Some "topic") ["."] None false true.


(** [noCheckout] of the branch that HEAD already names. *)
Definition no_checkout_master : Args :=
  mkArgs "/w" None false "" "origin" (Some "master") ["."] None true false.

End Inputs.

(** ** Further statements about the planner *)

(** An entry triple and the state in which [map] meets it yield the op
    [o]. *)
Definition plans {World} (U : Utils) (a : Args) (bases : list string)
    (g : option string) (commit workdir stage : Entry) (o : op) : Prop :=
  exists s s' : St World,
    walk_map U a bases g commit workdir stage s = (Ok (Some o), s').

(** The commit mode and the normalized mode of an index or workdir entry
    agree. *)
Definition same_mode (U : Utils) (commit other : Entry) : Prop :=
  src_mode commit = VStr (toString8 (normalizeMode U (src_mode other))).

(** The state after one more effect. *)
Definition logged {World} (s : St World) (e : Effect) : St World :=
  mkSt (world s) (trace s ++ [e]) (count s).

(** ** Further statements about the operation *)

(** The three writes that set up a remote tracking branch. *)
Definition tracking_branch_writes (a : Args) (gitdir ref oid : string) : list Effect :=
  [ConfigSet gitdir ("branch." ++ ref ++ ".remote") (remote a);
   ConfigSet gitdir ("branch." ++ ref ++ ".merge") ("refs/heads/" ++ ref);
   FsWrite (gitdir ++ "/refs/heads/" ++ ref) (oid ++ nl) None].

(** ** Statements about the applier *)

(** A progress event numbered above [lo] and up to [hi]. *)
Definition numbered (lo hi : nat) (e : Effect) : Prop :=
  match e with
  | Emit _ p => (lo < loaded p)%nat /\ (loaded p <= hi)%nat
  | _ => True
  end.

(** [m] only appends effects to the trace, all of them in [P]; it raises
    the counter, by at most [k]; and the progress events it emits are
    numbered within the counter. *)
Definition appends {World A} (P : Effect -> Prop) (k : nat) (m : M World A) : Prop :=
  forall s : St World, exists evs : list Effect,
    trace (snd (m s)) = (trace s ++ evs)%list /\
    Forall P evs /\
    (count s <= count (snd (m s)))%nat /\
    (count (snd (m s)) <= count s + k)%nat /\
    Forall (numbered (count s) (count (snd (m s)))) evs.

(** [`${dir}/${fullpath}`] *)
Definition filepath_of (a : Args) (o : op) : string :=
  dir a ++ "/" ++ to_str (op_fullpath o).

(** A progress event of the second pass over a plan of [n] ops. *)
Definition updating (a : Args) (n : nat) (name : string) (p : Progress) : Prop :=
  name = emitterPrefix a ++ "progress" /\
  phase p = "Updating workdir" /\
  total p = Some n.

(** The tests that select the ops of phases 1 and 4. *)
Definition in_phase1 (o : op) : bool :=
  is_method "delete" o || is_method "delete-index" o.

Definition in_phase4 (o : op) : bool :=
  is_method "create" o || is_method "create-index" o || is_method "update" o.

(** The effects of each phase, each accounted for by an op of the plan. *)
Definition phase1_effect (a : Args) (gitdir : string) (n : nat) (ops : list op)
    (e : Effect) : Prop :=
  match e with
  | IndexAcquire p | IndexRelease p => p = gitdir ++ "/index"
  | FsRm p =>
      exists o, In o ops /\ is_method "delete" o = true /\ p = filepath_of a o
  | IndexDelete fp =>
      exists o, In o ops /\ in_phase1 o = true /\ fp = op_fullpath o
  | Emit name p => updating a n name p
  | _ => False
  end.

Definition phase2_effect (a : Args) (n : nat) (ops : list op) (e : Effect) : Prop :=
  match e with
  | FsRmdir p =>
      exists o, In o ops /\ is_method "rmdir" o = true /\ p = filepath_of a o
  | ConsoleLog (LogText _) => True
  | Emit name p => updating a n name p
  | _ => False
  end.

Definition phase3_effect (a : Args) (n : nat) (ops : list op) (e : Effect) : Prop :=
  match e with
  | FsMkdir p =>
      exists o, In o ops /\ is_method "mkdir" o = true /\ p = filepath_of a o
  | Emit name p => updating a n name p
  | _ => False
  end.

Definition phase4_effect (a : Args) (gitdir : string) (n : nat) (ops : list op)
    (e : Effect) : Prop :=
  match e with
  | IndexAcquire p | IndexRelease p => p = gitdir ++ "/index"
  | FsRm p =>
      exists o, In o ops /\ in_phase4 o = true /\ is_method "create-index" o = false /\
                truthy (op_chmod o) = true /\ p = filepath_of a o
  | FsWrite p _ m =>
      exists o, In o ops /\ in_phase4 o = true /\ is_method "create-index" o = false /\
                p = filepath_of a o /\
                (op_mode o = VStr "100644" /\ m = None \/
                 op_mode o = VStr "100755" /\ m = Some 511%Z)
  | FsWritelink p _ =>
      exists o, In o ops /\ in_phase4 o = true /\ is_method "create-index" o = false /\
                p = filepath_of a o /\ op_mode o = VStr "120000"
  | IndexInsert fp _ oid =>
      exists o, In o ops /\ in_phase4 o = true /\ fp = op_fullpath o /\ oid = op_oid o
  | ConsoleLog (LogError _) => True
  | Emit name p => updating a n name p
  | _ => False
  end.

(** An effect of some phase. *)
Definition applier_effect (a : Args) (gitdir : string) (n : nat) (ops : list op)
    (e : Effect) : Prop :=
  phase1_effect a gitdir n ops e \/ phase2_effect a n ops e \/
  phase3_effect a n ops e \/ phase4_effect a gitdir n ops e.

(** The effects that write a file or a link of the working tree. *)
Definition is_file_write (e : Effect) : bool :=
  match e with
  | FsWrite _ _ _ | FsWritelink _ _ => true
  | _ => false
  end.

(** ** More concrete inputs *)

Module Cases.
Import Repo.

(** A staged file that the commit dropped, unchanged in the working tree. *)
Definition stale_stage : Entry := present "old/x" Blob (VNum 33188) (VStr Inputs.oidC).
Definition stale_workdir : Entry := present "old/x" Blob (VNum 33188) (VStr Inputs.oidC).

(** A file of the commit that the working tree already has, unstaged. *)
Definition incoming : Entry := present "a" Blob (VStr "100644") (VStr Inputs.oidA).
Definition same_content : Entry := present "a" Blob (VNum 33188) (VStr Inputs.oidA).


Definition here : St World := start (Inputs.two_branches Inputs.root_only).

Definition args : Args := default_args "topic".

(** A plan with one op of each phase. *)
Definition four_ops : list op :=
  [[VStr "mkdir"; VStr "d"];
   [VStr "create"; VStr "d/b"; VStr Inputs.oidB; VStr "100755"];
   [VStr "delete"; VStr "old/x"];
   [VStr "rmdir"; VStr "old"]].


(** The collaborators of a repository in which the directory [full]
    cannot be removed because it is not empty, and [locked] cannot be
    removed for another reason. *)
Definition stubborn (full locked : string) : Collab World :=
  mkCollab World resolve expand config
    (fun w _ _ _ => Ok (entries w))
    readObject fs_write fs_writelink fs_rm fs_mkdir
    (fun filepath w =>
       if String.eqb filepath full then (Throw (new_error (OtherError "ENOTEMPTY")), w)
       else if String.eqb filepath locked then (Throw (new_error (OtherError "EPERM")), w)
       else (Ok tt, w))
    fs_lstat index_insert index_delete.

(** Helpers whose [patternRoot] finds the literal root [root] in every
    pattern. *)
Definition rooted (root : string) : Utils :=
  mkUtils join (fun _ => root)
          (fun pattern s => String.eqb pattern "*" || String.eqb pattern s)
          worthWalking normalizeMode.

End Cases.

(** * Properties *)

Local Open Scope checkout_scope.

(** ** Running the monad *)

Ltac run :=
  repeat (progress
            (cbv beta iota delta
               [bind ret throw try_catch log read mutate incr_count set_count
                console_log emit_progress after_progress] in *;
             cbn [world trace count fst snd negb] in * )).

Lemma strict_ne_true (a b : val) : strict_ne a b = true <-> a <> b.
Proof.
  unfold strict_ne, strict_eq. rewrite negb_true_iff, bool_decide_eq_false. tauto.
Qed.

Lemma strict_ne_false (a b : val) : strict_ne a b = false <-> a = b.
Proof.
  unfold strict_ne, strict_eq. rewrite negb_false_iff, bool_decide_eq_true. tauto.
Qed.

(** Case analysis on an inequality test [x !== y]. *)
Ltac case_ne x y H :=
  destruct (strict_ne x y) eqn:H;
  [apply strict_ne_true in H | apply strict_ne_false in H].

(** A leaf of the blob-blob decision: the op is fixed, the rest is logic. *)
Ltac blob_leaf :=
  eexists; (split; [reflexivity|]);
  repeat split; try congruence; try tauto; intros; try discriminate.

Lemma emit_progress_analyzing {World} (a : Args) (s : St World) :
  emit_progress a "Analyzing workdir" None s = (Ok tt, after_progress a s).
Proof. unfold emit_progress, after_progress. destruct (emitter a); reflexivity. Qed.

(** The early exits of [map] are not taken by a triple that reaches the
    decision table. *)
Lemma walk_map_reaches (U : Utils) (bases : list string) (g : option string)
    (commit : Entry) :
  reaches_table U bases g commit ->
  (if String.eqb (fullpath commit) "." then true
   else match g with
        | Some g => negb (pattern_matches U bases g commit)
        | None => false
        end) = false.
Proof.
  intros [Hroot Hpat].
  destruct (String.eqb_spec (fullpath commit) "."); [contradiction|].
  destruct g; [rewrite Hpat|]; reflexivity.
Qed.

(** ** Key 111 / 110, blob-blob *)

(** C3. For an entry triple with key 111 or 110 whose stage and commit
    entries are blobs, and which reaches the decision table: a conflict op
    is emitted if and only if the workdir entry exists and its oid differs
    from both the stage oid and the commit oid; otherwise an update op with
    chmod = true is emitted if the commit mode differs from the normalized
    stage mode; otherwise an update op with chmod = false if the commit oid
    differs from the stage oid; otherwise no op. *)
Theorem modified_blob_blob :
  forall (World : Type) (U : Utils) (a : Args) (bases : list string)
         (g : option string) (commit workdir stage : Entry) (s : St World),
    reaches_table U bases g commit ->
    e_exists stage = true ->
    e_exists commit = true ->
    src_type stage = Blob ->
    src_type commit = Blob ->
    exists r : option op,
      walk_map U a bases g commit workdir stage s = (Ok r, after_progress a s) /\
      (r = Some [VStr "conflict"; VStr (fullpath commit)]
       <-> local_edits_lost commit workdir stage) /\
      (~ local_edits_lost commit workdir stage ->
       src_mode commit <> VStr (toString8 (normalizeMode U (src_mode stage))) ->
       r = Some [VStr "update"; VStr (fullpath commit); src_oid commit;
                 src_mode commit; VBool true]) /\
      (~ local_edits_lost commit workdir stage ->
       src_mode commit = VStr (toString8 (normalizeMode U (src_mode stage))) ->
       src_oid commit <> src_oid stage ->
       r = Some [VStr "update"; VStr (fullpath commit); src_oid commit;
                 src_mode commit; VBool false]) /\
      (~ local_edits_lost commit workdir stage ->
       src_mode commit = VStr (toString8 (normalizeMode U (src_mode stage))) ->
       src_oid commit = src_oid stage ->
       r = None).
Proof.
  intros World U a bases g commit workdir stage s Hreach Hs Hc Hts Htc.
  pose proof (walk_map_reaches U bases g commit Hreach) as Hearly.
  unfold walk_map, local_edits_lost.
  destruct (String.eqb (fullpath commit) ".") eqn:Hdot; [discriminate Hearly|].
  rewrite Hearly.
  unfold bind at 1. rewrite emit_progress_analyzing.
  rewrite Hs, Hc.
  unfold type, mode, oid, populateStat, populateHash; simpl.
  rewrite Hts, Htc.
  destruct (e_exists workdir) eqn:Hw; simpl.
  - case_ne (src_oid workdir) (src_oid stage) H1;
      case_ne (src_oid workdir) (src_oid commit) H2; simpl.
    + eexists; split; [reflexivity|].
      repeat split; try tauto; intros Hn; exfalso; apply Hn; auto.
    + case_ne (src_mode commit) (VStr (toString8 (normalizeMode U (src_mode stage)))) Hm;
        [|case_ne (src_oid commit) (src_oid stage) Ho]; blob_leaf.
    + case_ne (src_mode commit) (VStr (toString8 (normalizeMode U (src_mode stage)))) Hm;
        [|case_ne (src_oid commit) (src_oid stage) Ho]; blob_leaf.
    + case_ne (src_mode commit) (VStr (toString8 (normalizeMode U (src_mode stage)))) Hm;
        [|case_ne (src_oid commit) (src_oid stage) Ho]; blob_leaf.
  - case_ne (src_mode commit) (VStr (toString8 (normalizeMode U (src_mode stage)))) Hm;
      [|case_ne (src_oid commit) (src_oid stage) Ho]; blob_leaf;
      match goal with H : _ /\ _ |- _ => destruct H as [? _]; discriminate end.
Qed.

Lemma modified_blob_blob_witness :
  walk_map Repo.utils (Repo.default_args "master") ["."] None
    Inputs.modified_commit Inputs.modified_workdir Inputs.modified_stage
    (Repo.start (Inputs.two_branches Inputs.root_only))
  = (Ok (Some [VStr "conflict"; VStr "a.txt"]),
     Repo.start (Inputs.two_branches Inputs.root_only)).
Proof.
  destruct (modified_blob_blob Repo.World Repo.utils (Repo.default_args "master")
              ["."] None
              Inputs.modified_commit Inputs.modified_workdir Inputs.modified_stage
              (Repo.start (Inputs.two_branches Inputs.root_only)))
    as (r & Hrun & Hconflict & _).
  - split; [discriminate | exact I].
  - reflexivity.
  - reflexivity.
  - reflexivity.
  - reflexivity.
  - rewrite Hrun. f_equal. f_equal. apply Hconflict.
    repeat split; discriminate.
Defined.

(** ** Key 011, commit-tree *)

(** C5. What the code does for an entry triple with key 011 whose commit
    entry is a gitlink and whose workdir entry is a directory: it logs the
    "submodule support" diagnostic and then, the case having no [return],
    falls into the commit-blob case and emits a conflict op. *)
Theorem gitlink_over_directory :
  forall (World : Type) (U : Utils) (a : Args) (bases : list string)
         (g : option string) (commit workdir stage : Entry) (s : St World),
    reaches_table U bases g commit ->
    e_exists stage = false ->
    e_exists commit = true ->
    e_exists workdir = true ->
    src_type commit = Commit ->
    src_type workdir = Tree ->
    walk_map U a bases g commit workdir stage s
    = (Ok (Some [VStr "conflict"; VStr (fullpath commit)]),
       mkSt (world (after_progress a s))
            (trace (after_progress a s) ++ [submodule_diagnostic])
            (count (after_progress a s))).
Proof.
  intros World U a bases g commit workdir stage s Hreach Hs Hc Hw Htc Htw.
  pose proof (walk_map_reaches U bases g commit Hreach) as Hearly.
  unfold walk_map.
  destruct (String.eqb (fullpath commit) ".") eqn:Hdot; [discriminate Hearly|].
  rewrite Hearly.
  unfold bind at 1. rewrite emit_progress_analyzing.
  rewrite Hs, Hc, Hw.
  unfold type, populateStat; simpl. rewrite Htc, Htw.
  reflexivity.
Qed.

Lemma gitlink_over_directory_witness :
  walk_map Repo.utils (Repo.default_args "master") ["."] None
    Inputs.gitlink_commit Inputs.gitlink_workdir (Repo.absent "sub")
    (Repo.start (Inputs.two_branches Inputs.root_only))
  = (Ok (Some [VStr "conflict"; VStr "sub"]),
     mkSt (Inputs.two_branches Inputs.root_only) [submodule_diagnostic] 0).
Proof.
  apply (gitlink_over_directory Repo.World Repo.utils (Repo.default_args "master")
           ["."] None Inputs.gitlink_commit Inputs.gitlink_workdir (Repo.absent "sub")
           (Repo.start (Inputs.two_branches Inputs.root_only))).
  - split; [discriminate | exact I].
  - reflexivity.
  - reflexivity.
  - reflexivity.
  - reflexivity.
  - reflexivity.
Defined.

(** ** Key 101, unhandled stage type *)

Lemma report_clean {World} (ops : list op) (s : St World) :
  conflicts ops = [] -> errors ops = [] -> report ops s = (Ok tt, s).
Proof. intros Hc He. unfold report. rewrite Hc, He. reflexivity. Qed.

(** C6. What the code does for an entry triple with key 101 whose stage
    entry is neither a tree nor a blob: the op it emits is a one-element
    array holding the message; its first element is not 'error', so the
    aggregator collects nothing from it and does not fail. *)
Theorem unhandled_stage_type :
  forall (World : Type) (U : Utils) (a : Args) (bases : list string)
         (g : option string) (commit workdir stage : Entry) (s : St World),
    reaches_table U bases g commit ->
    e_exists stage = true ->
    e_exists commit = false ->
    e_exists workdir = true ->
    src_type stage <> Tree ->
    src_type stage <> Blob ->
    let o := [VStr ("delete entry Unhandled type " ++ type_name (src_type stage))] in
    walk_map U a bases g commit workdir stage s = (Ok (Some o), after_progress a s) /\
    op_method o <> VStr "error" /\
    errors [o] = [] /\
    forall s' : St World, report [o] s' = (Ok tt, s').
Proof.
  intros World U a bases g commit workdir stage s Hreach Hs Hc Hw Hnt Hnb o.
  pose proof (walk_map_reaches U bases g commit Hreach) as Hearly.
  assert (Hrun : walk_map U a bases g commit workdir stage s
                 = (Ok (Some o), after_progress a s)).
  { unfold walk_map.
    destruct (String.eqb (fullpath commit) ".") eqn:Hdot; [discriminate Hearly|].
    rewrite Hearly.
    unfold bind at 1. rewrite emit_progress_analyzing.
    rewrite Hs, Hc, Hw.
    unfold type, populateStat; simpl. subst o.
    destruct (src_type stage); try contradiction; reflexivity. }
  assert (Hshape : conflicts [o] = [] /\ errors [o] = [] /\ op_method o <> VStr "error").
  { subst o. destruct (src_type stage); try contradiction;
      (split; [reflexivity | split; [reflexivity | discriminate]]). }
  destruct Hshape as (Hcf & Her & Hm).
  split; [exact Hrun|]. split; [exact Hm|]. split; [exact Her|].
  intros s'. apply report_clean; assumption.
Qed.

Lemma unhandled_stage_type_witness :
  walk_map Repo.utils (Repo.default_args "master") ["."] None
    (Repo.absent "sub") Inputs.gitlink_workdir Inputs.gitlink_stage
    (Repo.start (Inputs.two_branches Inputs.root_only))
  = (Ok (Some [VStr "delete entry Unhandled type commit"]),
     Repo.start (Inputs.two_branches Inputs.root_only))
  /\ report [[VStr "delete entry Unhandled type commit"]]
       (Repo.start (Inputs.two_branches Inputs.root_only))
     = (Ok tt, Repo.start (Inputs.two_branches Inputs.root_only)).
Proof.
  destruct (unhandled_stage_type Repo.World Repo.utils (Repo.default_args "master")
              ["."] None (Repo.absent "sub") Inputs.gitlink_workdir Inputs.gitlink_stage
              (Repo.start (Inputs.two_branches Inputs.root_only)))
    as (Hrun & _ & _ & Hreport).
  - split; [discriminate | exact I].
  - reflexivity.
  - reflexivity.
  - reflexivity.
  - discriminate.
  - discriminate.
  - split; [exact Hrun | apply Hreport].
Defined.

Lemma bind_ext {World A B} (m1 m2 : M World A) (k1 k2 : A -> M World B) (s : St World) :
  m1 s = m2 s ->
  (forall x s', k1 x s' = k2 x s') ->
  bind m1 k1 s = bind m2 k2 s.
Proof.
  intros Hm Hk. unfold bind. rewrite Hm.
  destruct (m2 s) as [[x|e] s']; [apply Hk | reflexivity].
Qed.

(** ** Ops with an unrecognized method *)

Lemma unrecognized_method (o : op) (m : string) :
  ~ In (op_method o) (List.map VStr recognized) ->
  In m recognized ->
  is_method m o = false.
Proof.
  intros Hnot Hin. unfold is_method, strict_eq.
  apply bool_decide_eq_false. intros Heq. apply Hnot.
  rewrite Heq. apply in_map. exact Hin.
Qed.

Lemma filter_skip {A} (f : A -> bool) (l1 l2 : list A) (x : A) :
  f x = false -> List.filter f (l1 ++ x :: l2) = List.filter f (l1 ++ l2).
Proof.
  intros Hx. rewrite !List.filter_app. simpl. rewrite Hx. reflexivity.
Qed.

Lemma rmdir_loop_skip {World} (C : Collab World) (a : Args) (total : nat)
    (l1 l2 : list op) (o : op) :
  is_method "rmdir" o = false ->
  forall s, rmdir_loop C a total (l1 ++ o :: l2) s = rmdir_loop C a total (l1 ++ l2) s.
Proof.
  intros Ho. induction l1 as [|x l1 IH]; intros s.
  - simpl. unfold is_method in Ho. rewrite Ho. reflexivity.
  - simpl. apply bind_ext; [reflexivity|]. intros _ s'. apply IH.
Qed.

(** C10. An op whose first element is none of mkdir, rmdir, create,
    create-index, update, delete, delete-index, conflict, error is skipped
    by both scans of the aggregator and by the four phases of the applier:
    the plan with the op behaves as the plan without it, except that the
    op is counted in the total of the progress events. *)
Theorem unrecognized_op_skipped :
  forall (World : Type) (C : Collab World) (a : Args) (gitdir : string)
         (l1 l2 : list op) (o : op) (s : St World),
    ~ In (op_method o) (List.map VStr recognized) ->
    conflicts (l1 ++ o :: l2) = conflicts (l1 ++ l2) /\
    errors (l1 ++ o :: l2) = errors (l1 ++ l2) /\
    report (l1 ++ o :: l2) s = report (l1 ++ l2) s /\
    (forall total : nat,
        apply_phases C a gitdir total (l1 ++ o :: l2) s
        = apply_phases C a gitdir total (l1 ++ l2) s) /\
    apply_plan C a gitdir (l1 ++ o :: l2) s
    = (set_count 0 ;; apply_phases C a gitdir (S (length (l1 ++ l2))) (l1 ++ l2)) s.
Proof.
  intros World C a gitdir l1 l2 o s Hnot.
  assert (Hm : forall m, In m recognized -> is_method m o = false)
    by (intros m Hin; apply unrecognized_method; assumption).
  assert (Hconf : conflicts (l1 ++ o :: l2) = conflicts (l1 ++ l2)).
  { unfold conflicts. rewrite filter_skip; [reflexivity|]. apply Hm. simpl. tauto. }
  assert (Herr : errors (l1 ++ o :: l2) = errors (l1 ++ l2)).
  { unfold errors. rewrite filter_skip; [reflexivity|]. apply Hm. simpl. tauto. }
  assert (Hphases : forall total s0,
             apply_phases C a gitdir total (l1 ++ o :: l2) s0
             = apply_phases C a gitdir total (l1 ++ l2) s0).
  { intros total s0. unfold apply_phases.
    rewrite (filter_skip _ l1 l2 o)
      by (rewrite !Hm by (simpl; tauto); reflexivity).
    rewrite (filter_skip (is_method "mkdir") l1 l2 o) by (apply Hm; simpl; tauto).
    rewrite (filter_skip
               (fun o0 => is_method "create" o0 || is_method "create-index" o0
                          || is_method "update" o0) l1 l2 o)
      by (rewrite !Hm by (simpl; tauto); reflexivity).
    apply bind_ext; [reflexivity|]. intros _ s1.
    apply bind_ext; [|reflexivity].
    apply rmdir_loop_skip. apply Hm; simpl; tauto. }
  split; [exact Hconf|]. split; [exact Herr|].
  split; [unfold report; rewrite Hconf, Herr; reflexivity|].
  split; [intros total; apply Hphases|].
  unfold apply_plan. apply bind_ext; [reflexivity|]. intros _ s'.
  rewrite Hphases.
  replace (length (l1 ++ o :: l2)) with (S (length (l1 ++ l2)))
    by (rewrite !length_app; simpl; lia).
  reflexivity.
Qed.

Lemma unrecognized_op_skipped_witness :
  apply_plan Repo.collab (Repo.default_args "topic") "/w/.git"
    ([[VStr "mkdir"; VStr "d"]]
     ++ [VStr "delete entry Unhandled type commit"]
     :: [[VStr "create"; VStr "d/f"; VStr Inputs.oidC; VStr "100644"]])
    (Repo.start (Inputs.two_branches Inputs.root_only))
  = (set_count 0 ;;
     apply_phases Repo.collab (Repo.default_args "topic") "/w/.git" 3
       ([[VStr "mkdir"; VStr "d"]]
        ++ [[VStr "create"; VStr "d/f"; VStr Inputs.oidC; VStr "100644"]]))
    (Repo.start (Inputs.two_branches Inputs.root_only)).
Proof.
  apply (unrecognized_op_skipped Repo.World Repo.collab (Repo.default_args "topic")
           "/w/.git" [[VStr "mkdir"; VStr "d"]]
           [[VStr "create"; VStr "d/f"; VStr Inputs.oidC; VStr "100644"]]
           [VStr "delete entry Unhandled type commit"]
           (Repo.start (Inputs.two_branches Inputs.root_only))).
  simpl. intros H.
  repeat (destruct H as [H|H]; [discriminate H|]). exact H.
Defined.

(** ** Phase 4 *)

Lemma strict_eq_decide (a b : val) : strict_eq a b = bool_decide (a = b).
Proof. reflexivity. Qed.



(** ** The first pass writes nothing *)

Lemma quiet_refl {World} (s : St World) : quiet s s.
Proof. split; reflexivity. Qed.

Lemma quiet_trans {World} (s1 s2 s3 : St World) :
  quiet s1 s2 -> quiet s2 s3 -> quiet s1 s3.
Proof. intros [H1 H2] [H3 H4]. split; congruence. Qed.

Lemma writes_app (t1 t2 : list Effect) : writes (t1 ++ t2) = (writes t1 ++ writes t2)%list.
Proof. apply List.filter_app. Qed.

Lemma quiet_after_progress {World} (a : Args) (s : St World) :
  quiet s (after_progress a s).
Proof.
  unfold after_progress. destruct (emitter a); [|apply quiet_refl].
  split; [reflexivity|]. simpl. rewrite writes_app. simpl. apply app_nil_r.
Qed.

Lemma quiet_log {World} (s : St World) (e : Effect) :
  is_write e = false -> quiet s (mkSt (world s) (trace s ++ [e]) (count s)).
Proof.
  intros He. split; [reflexivity|]. simpl. rewrite writes_app. simpl.
  rewrite He. apply app_nil_r.
Qed.

(** [map] always returns; its result does not depend on the state; it
    writes nothing; and the path of a pathful op is the path of the
    entry triple, which is not the root. *)
Lemma walk_map_shape {World} (U : Utils) (a : Args) (bases : list string)
    (g : option string) (commit workdir stage : Entry) :
  exists r : option op, @map_result World U a bases g commit workdir stage r.
Proof.
  unfold map_result, walk_map.
  destruct (String.eqb_spec (fullpath commit) ".") as [Hroot|Hroot].
  { exists None. split; [intros st; exists st; split; [reflexivity | apply quiet_refl]|].
    intros o Ho; discriminate Ho. }
  destruct (match g with
            | Some g0 => negb (pattern_matches U bases g0 commit)
            | None => false
            end).
  { exists None. split; [intros st; exists st; split; [reflexivity | apply quiet_refl]|].
    intros o Ho; discriminate Ho. }
  unfold bind at 1.
  assert (Hemit : forall st : St World,
             emit_progress a "Analyzing workdir" None st = (Ok tt, after_progress a st))
    by (intros st; apply emit_progress_analyzing).
  unfold type, mode, oid, populateStat, populateHash. cbn -[emit_progress toString8].
  destruct (e_exists stage), (e_exists commit), (e_exists workdir);
    cbn -[emit_progress toString8].
  all: try (destruct (src_type commit); cbn -[emit_progress toString8]).
  all: try (destruct (src_type stage); cbn -[emit_progress toString8]).
  all: try (destruct (src_type workdir); cbn -[emit_progress toString8]).
  all: repeat match goal with
         | |- context [if ?b then _ else _] =>
             destruct b; cbn -[emit_progress toString8]
         end.
  all: try (eexists; split;
      [ intros st; rewrite Hemit; run; eexists; split;
        [ reflexivity
        | first [ apply quiet_after_progress
                | eapply quiet_trans;
                  [apply quiet_after_progress | apply quiet_log; reflexivity] ] ]
      | intros o Ho; first [discriminate Ho | injection Ho as <-];
        (split; [assumption|]);
        intros Hp; cbv in Hp;
        first [ left; reflexivity | right; reflexivity
              | repeat (destruct Hp as [Hp|Hp]; [discriminate Hp|]); contradiction ] ]).
Qed.

(** ** The walk *)

Lemma walk_reduce_reduced {World} (parent : option op) (children : list (list op))
    (s : St World) :
  walk_reduce parent children s = (Ok (reduced parent children), s).
Proof.
  unfold walk_reduce, reduced. destruct parent as [p|]; [|reflexivity].
  destruct (strict_eq (op_method p) (VStr "rmdir")); reflexivity.
Qed.

Lemma mapM_cons {World A B} (f : A -> M World B) (x : A) (l : list A) :
  mapM f (x :: l) = (y <- f x ;; ys <- mapM f l ;; ret (y :: ys)).
Proof. reflexivity. Qed.

(** The walk always returns a plan and writes nothing; an invariant [P]
    of the plans of subtrees that [reduce] preserves holds of the plan. *)
Lemma walk_general {World} (U : Utils) (a : Args) (bases : list string)
    (g : option string) (Q : WalkTree -> Prop) (P : WalkTree -> list op -> Prop) :
  (forall c w s ch, Q (WNode c w s ch) -> Forall Q ch) ->
  (forall c w s ch, Q (WNode c w s ch) -> P (WNode c w s ch) []) ->
  (forall c w s ch results r,
      Q (WNode c w s ch) ->
      Forall2 P ch results ->
      @map_result World U a bases g c w s r ->
      P (WNode c w s ch) (reduced r results)) ->
  forall t, Q t ->
  forall st : St World, exists ops st',
    walkBeta1 (walk_filter U bases) (walk_map U a bases g) walk_reduce t st
    = (Ok ops, st') /\ quiet st st' /\ P t ops.
Proof.
  intros HQ Hprune Hstep. fix IH 1. intros [c w s ch] Hq st.
  cbn [walkBeta1]. unfold bind at 1, walk_filter at 1, ret at 1.
  destruct (existsb (fun base => worthWalking U (fullpath c) base) bases).
  2:{ exists [], st. split; [reflexivity|]. split; [apply quiet_refl|]. apply Hprune, Hq. }
  destruct (walk_map_shape (World := World) U a bases g c w s) as (r & Hr).
  destruct (proj1 Hr st) as (st1 & Hrun & Hq1).
  unfold bind at 1. rewrite Hrun.
  assert (Hch : forall st1 : St World, exists results st2,
             mapM (walkBeta1 (walk_filter U bases) (walk_map U a bases g) walk_reduce)
                  ch st1 = (Ok results, st2)
             /\ quiet st1 st2 /\ Forall2 P ch results).
  { pose proof (HQ _ _ _ _ Hq) as Hall. clear - IH Hall.
    induction ch as [|t ch IHch]; intros st1.
    - exists [], st1. split; [reflexivity|]. split; [apply quiet_refl | constructor].
    - inversion Hall as [|? ? Ht Hrest]; subst.
      destruct (IH t Ht st1) as (ops & st2 & Hw & Hq2 & HP).
      destruct (IHch Hrest st2) as (results & st3 & Hm & Hq3 & HPs).
      exists (ops :: results), st3.
      split; [|split; [eapply quiet_trans; eassumption | constructor; assumption]].
      rewrite mapM_cons. unfold bind at 1. rewrite Hw.
      unfold bind at 1. rewrite Hm. reflexivity. }
  destruct (Hch st1) as (results & st2 & Hm & Hq2 & HPs).
  unfold bind at 1. rewrite Hm.
  rewrite walk_reduce_reduced.
  exists (reduced r results), st2.
  split; [reflexivity|]. split; [eapply quiet_trans; eassumption|].
  apply Hstep; assumption.
Qed.

(** ** Paths *)

Lemma append_nil (b : string) : "" ++ b = b.
Proof. reflexivity. Qed.

Lemma append_cons (c : ascii) (a b : string) : String c a ++ b = String c (a ++ b).
Proof. reflexivity. Qed.

Ltac sapp := repeat first [rewrite append_cons | rewrite append_nil].
Ltac sapp_in H := repeat first [rewrite append_cons in H | rewrite append_nil in H].

Lemma append_assoc (a b c : string) : (a ++ b) ++ c = a ++ (b ++ c).
Proof. induction a as [|x a IH]; sapp; [reflexivity | f_equal; exact IH]. Qed.

Lemma append_length (a b : string) :
  String.length (a ++ b) = (String.length a + String.length b)%nat.
Proof. induction a as [|x a IH]; sapp; simpl; [reflexivity | f_equal; exact IH]. Qed.

Lemma append_inj (a b c : string) : a ++ b = a ++ c -> b = c.
Proof.
  induction a as [|x a IH]; sapp; intros H; [exact H|].
  injection H as H. apply IH, H.
Qed.

Lemma append_empty (a : string) : a ++ "" = a.
Proof. induction a as [|x a IH]; sapp; [reflexivity | f_equal; exact IH]. Qed.

Lemma name_unique (n1 n2 t1 t2 : string) :
  has_slash n1 = false -> has_slash n2 = false ->
  name_end t1 -> name_end t2 ->
  n1 ++ t1 = n2 ++ t2 -> n1 = n2.
Proof.
  revert n2. induction n1 as [|c n1 IH]; intros [|d n2] H1 H2 E1 E2 Heq;
    sapp_in Heq; simpl in H1, H2.
  - reflexivity.
  - exfalso. destruct E1 as [-> | [rest ->]]; [discriminate Heq|].
    sapp_in Heq. injection Heq as Hc _. subst d.
    unfold is_slash in H2. simpl in H2. discriminate H2.
  - exfalso. destruct E2 as [-> | [rest ->]]; [discriminate Heq|].
    sapp_in Heq. injection Heq as Hc _. subst c.
    unfold is_slash in H1. simpl in H1. discriminate H1.
  - injection Heq as -> Heq.
    apply orb_false_elim in H1 as [_ H1]. apply orb_false_elim in H2 as [_ H2].
    f_equal. eapply IH; eassumption.
Qed.

Lemma is_child_of_spec (r : string) (t : WalkTree) :
  is_child_of r t = true ->
  exists n, node_path t = child_path r n /\ n <> "." /\ has_slash n = false.
Proof.
  unfold is_child_of, valid_name. intros H.
  apply andb_true_iff in H as [Hp Hv]. apply andb_true_iff in Hv as [Hd Hs].
  exists (name_of r (node_path t)).
  split; [apply String.eqb_eq, Hp|].
  split; [apply String.eqb_neq, negb_true_iff, Hd | apply negb_true_iff, Hs].
Qed.

Lemma child_path_not_root (r n : string) : n <> "." -> child_path r n <> ".".
Proof.
  unfold child_path. destruct (String.eqb r "."); [tauto|].
  intros _ H. destruct r as [|c r].
  - sapp_in H. discriminate H.
  - apply (f_equal String.length) in H.
    rewrite !append_length in H. simpl in H. lia.
Qed.

Lemma within_child (r n : string) : within r (child_path r n).
Proof.
  unfold within, child_path. destruct (String.eqb_spec r ".") as [->|Hr].
  - left. reflexivity.
  - right. right. exists n. reflexivity.
Qed.

Lemma within_trans (r q q' : string) :
  q <> "." -> within r q -> within q q' -> within r q'.
Proof.
  intros Hq [Hr | [-> | [rest ->]]] H; [left; exact Hr | exact H |].
  destruct H as [H | [-> | [rest' ->]]]; [contradiction | |].
  - right. right. exists rest. reflexivity.
  - right. right. exists (rest ++ "/" ++ rest'). rewrite !append_assoc. reflexivity.
Qed.

Lemma within_extend (r q rest : string) : within r q -> within r (q ++ "/" ++ rest).
Proof.
  intros [Hr | [-> | [rest' ->]]]; [left; exact Hr | |].
  - right. right. exists rest. reflexivity.
  - right. right. exists (rest' ++ "/" ++ rest). rewrite !append_assoc. reflexivity.
Qed.

Lemma within_child_length (r n q : string) :
  r <> "." -> n <> "." -> within (child_path r n) q ->
  (String.length r < String.length q)%nat.
Proof.
  intros Hr Hn [H | [-> | [rest ->]]].
  - exfalso. eapply child_path_not_root; eassumption.
  - unfold child_path. destruct (String.eqb_spec r "."); [contradiction|].
    rewrite !append_length. simpl. lia.
  - unfold child_path. destruct (String.eqb_spec r "."); [contradiction|].
    rewrite !append_length. simpl. lia.
Qed.

Lemma within_name_end (p q : string) :
  p <> "." -> within p q -> exists t, name_end t /\ q = p ++ t.
Proof.
  intros Hp [H | [-> | [rest ->]]]; [contradiction | |].
  - exists "". split; [left; reflexivity | symmetry; apply append_empty].
  - exists ("/" ++ rest). split; [right; exists rest; reflexivity | reflexivity].
Qed.

(** Two different children of one directory have nothing in common. *)
Lemma siblings_disjoint (r : string) (t1 t2 : WalkTree) (q : string) :
  is_child_of r t1 = true -> is_child_of r t2 = true ->
  node_path t1 <> node_path t2 ->
  within (node_path t1) q -> within (node_path t2) q -> False.
Proof.
  intros H1 H2 Hne W1 W2.
  apply is_child_of_spec in H1 as (n1 & E1 & Hd1 & Hs1).
  apply is_child_of_spec in H2 as (n2 & E2 & Hd2 & Hs2).
  rewrite E1, E2 in *.
  apply within_name_end in W1 as (e1 & He1 & Hq1); [|apply child_path_not_root, Hd1].
  apply within_name_end in W2 as (e2 & He2 & Hq2); [|apply child_path_not_root, Hd2].
  assert (n1 = n2); [|subst n2; apply Hne; reflexivity].
  rewrite Hq1 in Hq2. unfold child_path in Hq2.
  destruct (String.eqb r ".").
  - apply (name_unique n1 n2 e1 e2); assumption.
  - rewrite !append_assoc in Hq2. apply append_inj in Hq2.
    sapp_in Hq2. injection Hq2 as Hq2.
    apply (name_unique n1 n2 e1 e2); assumption.
Qed.

(** ** Order *)

Lemma ordered_nil (R : op -> op -> Prop) : ordered R [].
Proof. intros i j x y Hi. rewrite lookup_nil in Hi. discriminate Hi. Qed.

Lemma ordered_app (R : op -> op -> Prop) (l1 l2 : list op) :
  ordered R l1 -> ordered R l2 ->
  (forall x y, In x l2 -> In y l1 -> ~ R x y) ->
  ordered R (l1 ++ l2).
Proof.
  intros H1 H2 Hcross i j x y Hi Hj HR.
  apply lookup_app_Some in Hi as [Hi | [Hli Hi]];
    apply lookup_app_Some in Hj as [Hj | [Hlj Hj]].
  - eapply H1; eassumption.
  - apply lookup_lt_Some in Hi. lia.
  - exfalso. apply (Hcross x y); [| |exact HR].
    + apply list_elem_of_In. eapply list_elem_of_lookup_2, Hi.
    + apply list_elem_of_In. eapply list_elem_of_lookup_2, Hj.
  - pose proof (H2 _ _ _ _ Hi Hj HR). lia.
Qed.

Lemma ordered_single (R : op -> op -> Prop) (p : op) : ~ R p p -> ordered R [p].
Proof.
  intros Hp i j x y Hi Hj HR.
  apply list_lookup_singleton_Some in Hi as [-> <-].
  apply list_lookup_singleton_Some in Hj as [-> <-].
  contradiction.
Qed.

Lemma mkdir_create_nested (x y : op) : mkdir_create x y -> nested x y.
Proof.
  intros [P Q o m]. split; [cbv; tauto|]. split; [cbv; tauto|].
  exists P, (P ++ "/" ++ Q), Q. split; [reflexivity|]. split; [reflexivity|].
  left. reflexivity.
Qed.

Lemma delete_rmdir_nested (x y : op) : delete_rmdir x y -> nested x y.
Proof.
  intros [P Q]. split; [cbv; tauto|]. split; [cbv; tauto|].
  exists (P ++ "/" ++ Q), P, Q. split; [reflexivity|]. split; [reflexivity|].
  right. reflexivity.
Qed.

(** Nested ops cannot come from two different children. *)
Lemma nested_siblings (r : string) (t1 t2 : WalkTree) (x y : op) :
  is_child_of r t1 = true -> is_child_of r t2 = true ->
  node_path t1 <> node_path t2 ->
  scope (node_path t1) x -> scope (node_path t2) y ->
  nested x y -> False.
Proof.
  intros H1 H2 Hne Sx Sy (Px & Py & p & q & rest & Ex & Ey & Hnest).
  destruct (Sx Px) as (p' & Ex' & Wx). destruct (Sy Py) as (q' & Ey' & Wy).
  rewrite Ex in Ex'. injection Ex' as <-. rewrite Ey in Ey'. injection Ey' as <-.
  destruct Hnest as [-> | ->].
  - apply (siblings_disjoint r t1 t2 (p ++ "/" ++ rest)); auto using within_extend.
  - apply (siblings_disjoint r t1 t2 (q ++ "/" ++ rest)); auto using within_extend.
Qed.

Lemma in_flat_child (S : WalkTree -> list op -> Prop) (ch : list WalkTree)
    (results : list (list op)) (x : op) :
  Forall2 S ch results -> In x (flat results) ->
  exists t l, In t ch /\ S t l /\ In x l.
Proof.
  unfold flat. induction 1 as [|t l ch results HS Hall IH]; simpl; [tauto|].
  intros Hin. apply in_app_or in Hin as [Hin | Hin].
  - exists t, l. auto.
  - destruct (IH Hin) as (t' & l' & Ht & HS' & Hx). exists t', l'. auto.
Qed.

(** The plans of the children of one directory, one after the other,
    are in order. *)
Lemma ordered_flat (R : op -> op -> Prop) (r : string) (ch : list WalkTree)
    (results : list (list op)) :
  (forall x y, R x y -> nested x y) ->
  Forall2 (fun t l => Forall (scope (node_path t)) l /\ ordered R l) ch results ->
  forallb (is_child_of r) ch = true ->
  NoDup (List.map node_path ch) ->
  ordered R (flat results).
Proof.
  intros Hnest Hall. unfold flat.
  induction Hall as [|t l ch results [Hscope Hord] Hall IH]; simpl; intros Hch Hnd.
  - apply ordered_nil.
  - apply andb_true_iff in Hch as [Ht Hch].
    apply NoDup_cons in Hnd as [Hnotin Hnd].
    apply ordered_app; [exact Hord | apply IH; assumption |].
    intros x y Hx Hy HR.
    destruct (in_flat_child _ _ _ _ Hall Hx) as (t' & l' & Ht' & [Hscope' _] & Hx').
    apply (nested_siblings r t' t x y).
    + rewrite forallb_forall in Hch. apply Hch, Ht'.
    + exact Ht.
    + intros Heq. apply Hnotin. rewrite <- Heq.
      apply list_elem_of_In, in_map, Ht'.
    + rewrite Forall_forall in Hscope'. apply Hscope'. apply list_elem_of_In, Hx'.
    + rewrite Forall_forall in Hscope. apply Hscope. apply list_elem_of_In, Hy.
    + apply Hnest, HR.
Qed.

Lemma wf_walk_node (c w s : Entry) (ch : list WalkTree) :
  wf_walk (WNode c w s ch) = true ->
  fullpath w = fullpath c /\ fullpath s = fullpath c /\
  forallb (is_child_of (fullpath c)) ch = true /\
  NoDup (List.map node_path ch) /\
  Forall (fun t => wf_walk t = true) ch.
Proof.
  cbn [wf_walk]. intros H.
  apply andb_true_iff in H as [H Hwf]. apply andb_true_iff in H as [H Hnd].
  apply andb_true_iff in H as [H Hch]. apply andb_true_iff in H as [Hw Hs].
  split; [apply String.eqb_eq, Hw|]. split; [apply String.eqb_eq, Hs|].
  split; [exact Hch|]. split; [apply bool_decide_eq_true in Hnd; exact Hnd|].
  apply Forall_forall. intros t Ht. rewrite forallb_forall in Hwf.
  apply Hwf, list_elem_of_In, Ht.
Qed.

Lemma scope_of_child (r : string) (t : WalkTree) (x : op) :
  is_child_of r t = true -> scope (node_path t) x -> scope r x.
Proof.
  intros Ht Sx Px. destruct (Sx Px) as (q & Eq & Wq). exists q. split; [exact Eq|].
  apply is_child_of_spec in Ht as (n & En & Hd & _).
  apply (within_trans r (node_path t) q); [| |exact Wq].
  - rewrite En. apply child_path_not_root, Hd.
  - rewrite En. apply within_child.
Qed.

(** [reduce] preserves the invariant of plans. *)
Lemma plan_step {World} (U : Utils) (a : Args) (bases : list string) (g : option string)
    (c w s : Entry) (ch : list WalkTree) (results : list (list op)) (r : option op) :
  wf_walk (WNode c w s ch) = true ->
  Forall2 plan_inv ch results ->
  @map_result World U a bases g c w s r ->
  plan_inv (WNode c w s ch) (reduced r results).
Proof.
  intros Hwf Hall [_ Hshape].
  apply wf_walk_node in Hwf as (Hw & Hs & Hch & Hnd & _).
  assert (Hscope : Forall (scope (fullpath c)) (flat results)).
  { apply Forall_forall. intros x Hx. apply list_elem_of_In in Hx.
    destruct (in_flat_child _ _ _ _ Hall Hx) as (t & l & Ht & (Hsc & _) & Hxl).
    apply (scope_of_child _ t).
    - rewrite forallb_forall in Hch. apply Hch, Ht.
    - rewrite Forall_forall in Hsc. apply Hsc, list_elem_of_In, Hxl. }
  assert (Hmc : ordered mkdir_create (flat results)).
  { apply (ordered_flat _ (fullpath c) ch); auto using mkdir_create_nested.
    eapply Forall2_impl; [exact Hall|]. intros t l (? & ? & ?); auto. }
  assert (Hdr : ordered delete_rmdir (flat results)).
  { apply (ordered_flat _ (fullpath c) ch); auto using delete_rmdir_nested.
    eapply Forall2_impl; [exact Hall|]. intros t l (? & ? & ?); auto. }
  unfold plan_inv, reduced. cbn [node_path].
  destruct r as [p|]; [|auto].
  destruct (Hshape p eq_refl) as [Hroot Hpath].
  assert (Hp : scope (fullpath c) p).
  { intros Pp. exists (fullpath c). split; [|right; left; reflexivity].
    destruct (Hpath Pp) as [E | E]; [exact E | rewrite E, Hs; reflexivity]. }
  destruct (strict_eq (op_method p) (VStr "rmdir")) eqn:Hrmdir.
  - apply bool_decide_eq_true in Hrmdir.
    split; [apply Forall_app; split; [exact Hscope | constructor; [exact Hp | constructor]]|].
    split.
    + apply ordered_app; [exact Hmc | apply ordered_single; intros HR; inversion HR |].
      intros x y [<- | []] _ HR. inversion HR; subst. discriminate Hrmdir.
    + apply ordered_app; [exact Hdr | apply ordered_single; intros HR; inversion HR |].
      intros x y [<- | []] _ HR. inversion HR; subst. discriminate Hrmdir.
  - apply bool_decide_eq_false in Hrmdir.
    split; [constructor; assumption|].
    split.
    + change (p :: flat results) with ([p] ++ flat results)%list.
      apply ordered_app; [apply ordered_single; intros HR; inversion HR | exact Hmc |].
      intros x y Hx [<- | []] HR. inversion HR as [P Q o m Ex Ey]. subst.
      destruct (Hp ltac:(cbv; tauto)) as (q & Eq & _).
      assert (Eroot : fullpath c = P ++ "/" ++ Q).
      { destruct (Hpath ltac:(cbv; tauto)) as [E | E];
          unfold op_fullpath in E; cbn [nth] in E; [|rewrite Hs in E];
          injection E as E; symmetry; exact E. }
      destruct (in_flat_child _ _ _ _ Hall Hx) as (t & l & Ht & (Hsc & _) & Hxl).
      rewrite Forall_forall in Hsc.
      destruct (Hsc _ (proj2 (list_elem_of_In _ _) Hxl) ltac:(cbv; tauto))
        as (q' & Eq' & Wq').
      unfold op_fullpath in Eq'; cbn [nth] in Eq'. injection Eq' as <-.
      rewrite forallb_forall in Hch.
      destruct (is_child_of_spec _ _ (Hch _ Ht)) as (n & En & Hd & _).
      rewrite En in Wq'.
      pose proof (within_child_length _ _ _ Hroot Hd Wq') as Hlen.
      rewrite Eroot in Hlen at 1. rewrite !append_length in Hlen. simpl in Hlen. lia.
    + change (p :: flat results) with ([p] ++ flat results)%list.
      apply ordered_app; [apply ordered_single; intros HR; inversion HR | exact Hdr |].
      intros x y _ [<- | []] HR. inversion HR; subst. apply Hrmdir. reflexivity.
Qed.

(** ** The plan is in apply order *)

(** C4. The reducer appends an rmdir parent op after the ops of its
    children and prepends any other parent op before them; and in the plan
    that the walk returns for a well-formed traversal, every [mkdir P]
    precedes every [create P/Q] and every [delete P/Q] precedes every
    [rmdir P]. *)
Theorem apply_order :
  forall (World : Type) (U : Utils) (a : Args) (bases : list string) (g : option string),
    (forall (p : op) (children : list (list op)) (s : St World),
        walk_reduce (Some p) children s
        = (Ok (if strict_eq (op_method p) (VStr "rmdir")
               then (flat children ++ [p])%list
               else p :: flat children), s))
    /\
    (forall (t : WalkTree) (s : St World),
        wf_walk t = true ->
        exists (ops : list op) (s' : St World),
          walkBeta1 (walk_filter U bases) (walk_map U a bases g) walk_reduce t s
          = (Ok ops, s') /\
          (forall (i j : nat) (P Q : string) (oid mode : val),
              ops !! i = Some [VStr "mkdir"; VStr P] ->
              ops !! j = Some [VStr "create"; VStr (P ++ "/" ++ Q); oid; mode] ->
              (i < j)%nat) /\
          (forall (i j : nat) (P Q : string),
              ops !! i = Some [VStr "delete"; VStr (P ++ "/" ++ Q)] ->
              ops !! j = Some [VStr "rmdir"; VStr P] ->
              (i < j)%nat)).
Proof.
  intros World U a bases g. split.
  - intros p children s. apply (walk_reduce_reduced (Some p)).
  - intros t s Hwf.
    destruct (walk_general (World := World) U a bases g
                (fun t => wf_walk t = true) plan_inv) with (t := t) (st := s)
      as (ops & s' & Hrun & _ & (_ & Hmc & Hdr)).
    + intros c w e ch H. apply wf_walk_node in H. tauto.
    + intros c w e ch _. split; [constructor|]. split; apply ordered_nil.
    + intros c w e ch results r H1 H2 H3. eapply plan_step; eassumption.
    + exact Hwf.
    + exists ops, s'. split; [exact Hrun|]. split.
      * intros i j P Q o m Hi Hj. eapply Hmc; [exact Hi | exact Hj | constructor].
      * intros i j P Q Hi Hj. eapply Hdr; [exact Hi | exact Hj | constructor].
Qed.

Lemma apply_order_witness :
  exists (ops : list op) (s' : St Repo.World),
    walkBeta1 (walk_filter Repo.utils ["."])
              (walk_map Repo.utils (Repo.default_args "topic") ["."] None)
              walk_reduce Inputs.fresh_and_stale
              (Repo.start (Inputs.two_branches Inputs.fresh_and_stale))
    = (Ok ops, s') /\
    (forall (i j : nat) (P Q : string) (oid mode : val),
        ops !! i = Some [VStr "mkdir"; VStr P] ->
        ops !! j = Some [VStr "create"; VStr (P ++ "/" ++ Q); oid; mode] ->
        (i < j)%nat) /\
    (forall (i j : nat) (P Q : string),
        ops !! i = Some [VStr "delete"; VStr (P ++ "/" ++ Q)] ->
        ops !! j = Some [VStr "rmdir"; VStr P] ->
        (i < j)%nat).
Proof.
  apply (apply_order Repo.World Repo.utils (Repo.default_args "topic") ["."] None).
  vm_compute. reflexivity.
Defined.

Example plan_of_fresh_and_stale :
  fst (walkBeta1 (walk_filter Repo.utils ["."])
                 (walk_map Repo.utils (Repo.default_args "topic") ["."] None)
                 walk_reduce Inputs.fresh_and_stale
                 (Repo.start (Inputs.two_branches Inputs.fresh_and_stale)))
  = Ok [[VStr "create"; VStr "a"; VStr Inputs.oidA; VStr "100644"];
        [VStr "mkdir"; VStr "d"];
        [VStr "create"; VStr "d/b"; VStr Inputs.oidB; VStr "100755"];
        [VStr "delete"; VStr "old/x"];
        [VStr "rmdir"; VStr "old"]].
Proof. vm_compute. reflexivity. Qed.

(** ** The operation as a whole *)

Lemma fastCheckout_resolved {World} (U : Utils) (C : Collab World) (a : Args)
    (refname oid HEAD : string) (s s1 : St World) :
  ref a = Some refname ->
  resolve_oid C a (gitdir_of U a) refname s = (Ok oid, s1) ->
  resolve C (world s1) (gitdir_of U a) "HEAD" = Ok HEAD ->
  fastCheckout U C a s
  = tagged (after_resolve U C a refname oid HEAD) (counting_from_zero s1).
Proof.
  intros Href Hoid Hhead.
  unfold fastCheckout, tagged, after_resolve, bases_of, globrex_of, try_catch.
  rewrite Href. destruct (pattern_setup U (pattern a)) as [patternPart patternGlobrex].
  cbn [fst snd].
  unfold bind at 1. rewrite Hoid.
  unfold bind at 1, read at 1. rewrite Hhead.
  unfold bind at 1, set_count at 1. reflexivity.
Qed.

Lemma resolve_oid_local {World} (C : Collab World) (a : Args) (gitdir refname oid : string)
    (s : St World) :
  resolve C (world s) gitdir refname = Ok oid ->
  resolve_oid C a gitdir refname s = (Ok oid, s).
Proof. intros H. unfold resolve_oid, try_catch, read. rewrite H. reflexivity. Qed.

Lemma analyze_quiet {World} (U : Utils) (C : Collab World) (a : Args)
    (gitdir refname : string) (bases : list string) (g : option string) (oid : string)
    (s s' : St World) (r : Res (list op)) :
  analyze U C a gitdir refname bases g oid s = (r, s') -> quiet s s'.
Proof.
  unfold analyze, try_catch, bind, read.
  destruct (walk_trees C (world s) (dir a) gitdir refname) as [t|e].
  - destruct (walk_general (World := World) U a bases g (fun _ => True) (fun _ _ => True))
      with (t := t) (st := s) as (ops & s2 & Hrun & Hq & _); auto.
    { intros c w e ch _. apply Forall_forall. auto. }
    rewrite Hrun. intros H. injection H as _ <-. exact Hq.
  - destruct (err e); try (intros H; injection H as _ <-; apply quiet_refl).
    destruct (strict_eq oid0 (VStr oid)); intros H; injection H as _ <-; apply quiet_refl.
Qed.

Lemma report_conflicts {World} (ops : list op) (s : St World) :
  conflicts ops <> [] ->
  report ops s = (Throw (new_error (CheckoutConflictError (conflicts ops))), s).
Proof.
  intros H. unfold report. destruct (conflicts ops); [contradiction | reflexivity].
Qed.

Lemma report_errors {World} (ops : list op) (s : St World) :
  conflicts ops = [] -> errors ops <> [] ->
  report ops s = (Throw (new_error (InternalFailList (errors ops))), s).
Proof.
  intros Hc H. unfold report. rewrite Hc. simpl.
  destruct (errors ops); [contradiction | reflexivity].
Qed.




Lemma walk_taken (a : Args) (HEAD oid : string) :
  noCheckout a = false -> HEAD <> oid ->
  negb (noCheckout a) && negb (String.eqb HEAD oid) = true.
Proof.
  intros -> Hne. apply String.eqb_neq in Hne. rewrite Hne. reflexivity.
Qed.

(** ** Conflicts and errors abort before any mutation *)



(** ** Dry run *)

(** C2, as stated, fails.  A dry run over a working tree with a local
    edit returns no plan: it fails with the conflict.  And a dry run of a
    ref that exists only on the remote returns the plan, yet it has written
    two config entries and the new branch file. *)
Lemma dry_run_not_pure :
  dryRun Inputs.dry_run_topic = true /\
  fst (fastCheckout Repo.utils Repo.collab Inputs.dry_run_topic
         (Repo.start (Inputs.two_branches Inputs.dirty)))
  = Throw (checkout_error (CheckoutConflictError [VStr "old/x"])) /\
  dryRun Inputs.dry_run_feature = true /\
  fst (fastCheckout Repo.utils Repo.collab Inputs.dry_run_feature
         (Repo.start (Inputs.two_branches Inputs.root_only)))
  = Ok (Some []) /\
  trace (snd (fastCheckout Repo.utils Repo.collab Inputs.dry_run_feature
                (Repo.start (Inputs.two_branches Inputs.root_only))))
  = [ConfigSet "/w/.git" "branch.feature.remote" "origin";
     ConfigSet "/w/.git" "branch.feature.merge" "refs/heads/feature";
     FsWrite "/w/.git/refs/heads/feature" (Inputs.oidB ++ nl) None] /\
  Repo.cfg (Inputs.two_branches Inputs.root_only) !! "branch.feature.remote" = None /\
  Repo.cfg (world (snd (fastCheckout Repo.utils Repo.collab Inputs.dry_run_feature
                          (Repo.start (Inputs.two_branches Inputs.root_only)))))
    !! "branch.feature.remote" = Some "origin".
Proof. vm_compute. repeat split; reflexivity. Qed.

(** C2, amended. A dry run whose walk is taken (noCheckout unset, HEAD not
    at the commit of the ref) returns the plan when the plan holds no
    conflict and no error op, and fails with the CheckoutConflict or
    Internal error otherwise; either way it ends in the state the walk
    left, and from the resolution of the ref on nothing is written: no
    filesystem, index or config write and no HEAD write. *)
Theorem dry_run_returns_plan :
  forall (World : Type) (U : Utils) (C : Collab World) (a : Args)
         (refname oid HEAD : string) (ops : list op) (s s1 s2 : St World),
    dryRun a = true ->
    ref a = Some refname ->
    resolve_oid C a (gitdir_of U a) refname s = (Ok oid, s1) ->
    resolve C (world s1) (gitdir_of U a) "HEAD" = Ok HEAD ->
    noCheckout a = false ->
    HEAD <> oid ->
    analyze U C a (gitdir_of U a) refname (bases_of U a) (globrex_of U a) oid
            (counting_from_zero s1) = (Ok ops, s2) ->
    (conflicts ops = [] -> errors ops = [] ->
     fastCheckout U C a s = (Ok (Some ops), s2)) /\
    (conflicts ops <> [] ->
     fastCheckout U C a s
     = (Throw (checkout_error (CheckoutConflictError (conflicts ops))), s2)) /\
    (conflicts ops = [] -> errors ops <> [] ->
     fastCheckout U C a s
     = (Throw (checkout_error (InternalFailList (errors ops))), s2)) /\
    world s2 = world s1 /\
    writes (trace s2) = writes (trace s1) /\
    (forall o, resolve C (world s) (gitdir_of U a) refname = Ok o -> s1 = s).
Proof.
  intros World U C a refname oid HEAD ops s s1 s2 Hdry Href Hoid Hhead Hno Hne Hplan.
  pose proof (fastCheckout_resolved U C a refname oid HEAD s s1 Href Hoid Hhead) as Hfc.
  pose proof (walk_taken a HEAD oid Hno Hne) as Hwalk.
  assert (Hrun : forall r,
             report ops s2 = (r, s2) ->
             fastCheckout U C a s
             = (match r with
                | Ok _ => Ok (Some ops)
                | Throw e => Throw (checkout_error (err e))
                end, s2)).
  { intros r Hrep. rewrite Hfc.
    unfold tagged, after_resolve, try_catch. rewrite Hwalk.
    unfold bind at 1, update_workdir at 1.
    unfold bind at 1. rewrite Hplan.
    unfold bind at 1. rewrite Hrep. rewrite Hdry.
    destruct r; reflexivity. }
  pose proof (analyze_quiet _ _ _ _ _ _ _ _ _ _ _ Hplan) as [Hw Ht].
  split; [|split; [|split; [|split; [|split]]]].
  - intros Hc He. apply (Hrun (Ok tt)). apply report_clean; assumption.
  - intros Hc.
    apply (Hrun (Throw (new_error (CheckoutConflictError (conflicts ops))))).
    apply report_conflicts, Hc.
  - intros Hc He.
    apply (Hrun (Throw (new_error (InternalFailList (errors ops))))).
    apply report_errors; assumption.
  - exact Hw.
  - exact Ht.
  - intros o Hlocal. rewrite (resolve_oid_local C a _ _ _ s Hlocal) in Hoid.
    injection Hoid as _ <-. reflexivity.
Qed.

Lemma dry_run_returns_plan_witness :
  fastCheckout Repo.utils Repo.collab Inputs.dry_run_topic
    (Repo.start (Inputs.two_branches Inputs.fresh_and_stale))
  = (Ok (Some [[VStr "create"; VStr "a"; VStr Inputs.oidA; VStr "100644"];
               [VStr "mkdir"; VStr "d"];
               [VStr "create"; VStr "d/b"; VStr Inputs.oidB; VStr "100755"];
               [VStr "delete"; VStr "old/x"];
               [VStr "rmdir"; VStr "old"]]),
     Repo.start (Inputs.two_branches Inputs.fresh_and_stale)).
Proof.
  destruct (dry_run_returns_plan Repo.World Repo.utils Repo.collab
              Inputs.dry_run_topic "topic" Inputs.oidB Inputs.oidA
              [[VStr "create"; VStr "a"; VStr Inputs.oidA; VStr "100644"];
               [VStr "mkdir"; VStr "d"];
               [VStr "create"; VStr "d/b"; VStr Inputs.oidB; VStr "100755"];
               [VStr "delete"; VStr "old/x"];
               [VStr "rmdir"; VStr "old"]]
              (Repo.start (Inputs.two_branches Inputs.fresh_and_stale))
              (Repo.start (Inputs.two_branches Inputs.fresh_and_stale))
              (Repo.start (Inputs.two_branches Inputs.fresh_and_stale)))
    as [Hclean _].
  - reflexivity.
  - reflexivity.
  - vm_compute. reflexivity.
  - vm_compute. reflexivity.
  - reflexivity.
  - discriminate.
  - vm_compute. reflexivity.
  - apply Hclean; reflexivity.
Defined.

(** ** HEAD *)

Lemma prefix_app (a b s : string) :
  String.prefix (a ++ b) s = true -> String.prefix a s = true.
Proof.
  revert s. induction a as [|c a IH]; intros s; [destruct s; reflexivity|].
  sapp. destruct s as [|d s]; simpl; [discriminate|].
  destruct (ascii_dec c d); [apply IH | discriminate].
Qed.

Lemma update_HEAD_written {World} (C : Collab World) (gitdir refname oid fullRef : string)
    (st : St World) :
  expand C (world st) gitdir refname = Ok fullRef ->
  update_HEAD C gitdir refname oid st
  = mutate (head_write gitdir fullRef oid)
           (fs_write C (gitdir ++ "/HEAD") (head_content fullRef oid) None) st.
Proof.
  intros H. unfold update_HEAD, bind, read. rewrite H. reflexivity.
Qed.

Lemma update_HEAD_failed {World} (C : Collab World) (gitdir refname oid : string)
    (st : St World) (e : Exn) :
  expand C (world st) gitdir refname = Throw e ->
  update_HEAD C gitdir refname oid st = (Throw e, st).
Proof.
  intros H. unfold update_HEAD, bind, read. rewrite H. reflexivity.
Qed.

Lemma head_content_branch (fullRef oid : string) :
  startsWith fullRef "refs/heads/" = true ->
  head_content fullRef oid = ("ref: " ++ fullRef) ++ nl.
Proof.
  unfold head_content, startsWith. intros H.
  rewrite (prefix_app "refs/heads" "/" fullRef H). reflexivity.
Qed.

Lemma head_content_detached (fullRef oid : string) :
  startsWith fullRef "refs/heads" = false ->
  head_content fullRef oid = oid ++ nl.
Proof. unfold head_content. intros ->. reflexivity. Qed.

Lemma walk_skipped (a : Args) (HEAD oid : string) :
  noCheckout a = true \/ HEAD = oid ->
  negb (noCheckout a) && negb (String.eqb HEAD oid) = false.
Proof.
  intros [-> | ->]; [reflexivity|].
  rewrite String.eqb_refl. apply andb_false_r.
Qed.




Lemma update_workdir_result {World} (U : Utils) (C : Collab World) (a : Args)
    (gitdir refname : string) (bases : list string) (g : option string) (oid : string)
    (st s2 : St World) (r : Res (option (list op))) :
  update_workdir U C a gitdir refname bases g oid st = (r, s2) ->
  match r with
  | Ok None => dryRun a = false
  | Ok (Some _) => dryRun a = true
  | Throw _ => True
  end.
Proof.
  unfold update_workdir. unfold bind at 1.
  destruct (analyze U C a gitdir refname bases g oid st) as [[ops|e] s1];
    [|intros H; injection H as <- _; exact I].
  unfold bind at 1.
  destruct (report ops s1) as [[u|e] s1']; [|intros H; injection H as <- _; exact I].
  destruct (dryRun a).
  - intros H. injection H as <- _. reflexivity.
  - unfold bind.
    destruct (apply_plan C a gitdir ops s1') as [[u'|e] s3];
      intros H; injection H as <- _; [reflexivity | exact I].
Qed.

(** C8, as stated, fails: with noCheckout set and HEAD already at the
    commit of the ref, HEAD is rewritten, although no apply has run and HEAD
    does not differ from the resolved oid. *)
Lemma head_written_when_already_there :
  noCheckout Inputs.no_checkout_master = true /\
  Repo.resolve (Inputs.two_branches Inputs.fresh_and_stale) "/w/.git" "HEAD"
  = Ok Inputs.oidA /\
  Repo.resolve (Inputs.two_branches Inputs.fresh_and_stale) "/w/.git" "master"
  = Ok Inputs.oidA /\
  fst (fastCheckout Repo.utils Repo.collab Inputs.no_checkout_master
         (Repo.start (Inputs.two_branches Inputs.fresh_and_stale)))
  = Ok None /\
  trace (snd (fastCheckout Repo.utils Repo.collab Inputs.no_checkout_master
                (Repo.start (Inputs.two_branches Inputs.fresh_and_stale))))
  = [FsWrite "/w/.git/HEAD" ("ref: refs/heads/master" ++ nl) None].
Proof. vm_compute. repeat split; reflexivity. Qed.

(** C8, amended. Once [ref] and HEAD are resolved, HEAD is rewritten,
    as the last step of the operation, in exactly these cases: the update
    of the working tree is skipped (noCheckout is set, or HEAD is already
    at the resolved oid), or it is taken and the apply has succeeded.  It
    is not rewritten when the plan is returned by a dry run or when the
    update of the working tree fails.  The content written is
    [ref: <fullref>] and a newline when the expanded ref begins with
    [refs/heads/], and the oid and a newline when it does not begin with
    [refs/heads]; nothing is written when the ref cannot be expanded. *)
Theorem head_rewritten :
  forall (World : Type) (U : Utils) (C : Collab World) (a : Args)
         (refname oid HEAD : string) (s s1 : St World),
    ref a = Some refname ->
    resolve_oid C a (gitdir_of U a) refname s = (Ok oid, s1) ->
    resolve C (world s1) (gitdir_of U a) "HEAD" = Ok HEAD ->
    (noCheckout a = true \/ HEAD = oid ->
     fastCheckout U C a s
     = tagged (update_HEAD C (gitdir_of U a) refname oid ;; ret None)
              (counting_from_zero s1))
    /\
    (noCheckout a = false -> HEAD <> oid ->
     forall (r : Res (option (list op))) (s2 : St World),
       update_workdir U C a (gitdir_of U a) refname (bases_of U a) (globrex_of U a) oid
                      (counting_from_zero s1) = (r, s2) ->
       match r with
       | Ok None =>
           dryRun a = false /\
           fastCheckout U C a s
           = tagged (update_HEAD C (gitdir_of U a) refname oid ;; ret None) s2
       | Ok (Some plan) =>
           dryRun a = true /\
           fastCheckout U C a s = (Ok (Some plan), s2)
       | Throw e =>
           fastCheckout U C a s = (Throw (checkout_error (err e)), s2)
       end)
    /\
    (forall (st : St World) (fullRef : string),
        expand C (world st) (gitdir_of U a) refname = Ok fullRef ->
        update_HEAD C (gitdir_of U a) refname oid st
        = mutate (FsWrite (gitdir_of U a ++ "/HEAD") (head_content fullRef oid) None)
                 (fs_write C (gitdir_of U a ++ "/HEAD") (head_content fullRef oid) None)
                 st
        /\
        (startsWith fullRef "refs/heads/" = true ->
         head_content fullRef oid = ("ref: " ++ fullRef) ++ nl) /\
        (startsWith fullRef "refs/heads" = false ->
         head_content fullRef oid = oid ++ nl))
    /\
    (forall (st : St World) (e : Exn),
        expand C (world st) (gitdir_of U a) refname = Throw e ->
        update_HEAD C (gitdir_of U a) refname oid st = (Throw e, st)).
Proof.
  intros World U C a refname oid HEAD s s1 Href Hoid Hhead.
  pose proof (fastCheckout_resolved U C a refname oid HEAD s s1 Href Hoid Hhead) as Hfc.
  split; [|split; [|split]].
  - intros Hskip. rewrite Hfc. unfold tagged, after_resolve.
    rewrite (walk_skipped a HEAD oid Hskip). reflexivity.
  - intros Hno Hne r s2 Hrun.
    pose proof (update_workdir_result _ _ _ _ _ _ _ _ _ _ _ Hrun) as Hres.
    assert (Hgo : fastCheckout U C a s
                  = match r with
                    | Ok (Some plan) => (Ok (Some plan), s2)
                    | Ok None =>
                        tagged (update_HEAD C (gitdir_of U a) refname oid ;; ret None) s2
                    | Throw e => (Throw (checkout_error (err e)), s2)
                    end).
    { rewrite Hfc. unfold tagged, after_resolve, try_catch.
      rewrite (walk_taken a HEAD oid Hno Hne).
      unfold bind at 1. rewrite Hrun.
      destruct r as [[plan|]|e]; reflexivity. }
    destruct r as [[plan|]|e]; [split; [exact Hres | exact Hgo] | | exact Hgo].
    split; [exact Hres | exact Hgo].
  - intros st fullRef Hexp. split; [apply update_HEAD_written, Hexp|].
    split; [apply head_content_branch | apply head_content_detached].
  - intros st e Hexp. apply update_HEAD_failed, Hexp.
Qed.

Lemma head_rewritten_witness :
  fastCheckout Repo.utils Repo.collab Inputs.no_checkout_master
    (Repo.start (Inputs.two_branches Inputs.fresh_and_stale))
  = tagged (update_HEAD Repo.collab "/w/.git" "master" Inputs.oidA ;; ret None)
           (Repo.start (Inputs.two_branches Inputs.fresh_and_stale)).
Proof.
  destruct (head_rewritten Repo.World Repo.utils Repo.collab Inputs.no_checkout_master
              "master" Inputs.oidA Inputs.oidA
              (Repo.start (Inputs.two_branches Inputs.fresh_and_stale))
              (Repo.start (Inputs.two_branches Inputs.fresh_and_stale)))
    as [Hskip _].
  - reflexivity.
  - vm_compute. reflexivity.
  - vm_compute. reflexivity.
  - apply Hskip. left. reflexivity.
Defined.

(** ** Checks of the model on the scenarios of the specification *)

Example toString8_modes :
  toString8 33188 = "100644" /\ toString8 33261 = "100755" /\ toString8 40960 = "120000".
Proof. vm_compute. repeat split; reflexivity. Qed.

Example replace_first_occurrence :
  replace "src/a/b.js" "src/" = "a/b.js" /\ replace "a/b" "x/" = "a/b".
Proof. vm_compute. split; reflexivity. Qed.

(** Scenario S2 and the fresh part of S1: the plan is applied, files and
    index follow, HEAD names the branch. *)
Example checkout_topic :
  let r := fastCheckout Repo.utils Repo.collab (Repo.default_args "topic")
             (Repo.start (Inputs.two_branches Inputs.fresh_and_stale)) in
  fst r = Ok None /\
  writes (trace (snd r))
  = [IndexAcquire "/w/.git/index";
     FsRm "/w/old/x"; IndexDelete (VStr "old/x");
     IndexRelease "/w/.git/index";
     FsRmdir "/w/old";
     FsMkdir "/w/d";
     IndexAcquire "/w/.git/index";
     FsWrite "/w/a" "alpha" None;
     IndexInsert (VStr "a") (mkStats 33188 5 0) (VStr Inputs.oidA);
     FsWrite "/w/d/b" "beta" (Some 511%Z);
     IndexInsert (VStr "d/b") (mkStats 493 4 0) (VStr Inputs.oidB);
     IndexRelease "/w/.git/index";
     FsWrite "/w/.git/HEAD" ("ref: refs/heads/topic" ++ nl) None].
Proof. vm_compute. split; reflexivity. Qed.

(** * Further properties of the planner *)

Ltac planner_cases H :=
  unfold walk_map in H;
  match type of H with context [String.eqb ?p "."] =>
    destruct (String.eqb_spec p "."); [discriminate H|] end;
  match type of H with context [match ?g with Some _ => _ | None => false end] =>
    destruct (match g with Some g0 => _ | None => false end); [discriminate H|] end;
  unfold bind at 1 in H; rewrite emit_progress_analyzing in H;
  unfold type, mode, oid, populateStat, populateHash in H;
  cbn -[toString8] in H.

Ltac split_tests H :=
  repeat match type of H with
    | context [strict_ne ?x ?y] =>
        let E := fresh "E" in
        destruct (strict_ne x y) eqn:E;
        [apply strict_ne_true in E | apply strict_ne_false in E];
        cbn -[toString8] in H
    end.

(** X1. What the planner never does: it plans no op for a path that is
    in neither the stage nor the commit; it plans a [delete] only for a
    staged blob that the commit dropped and whose working-tree content
    still has the staged oid; an [update] only for a blob staged and
    committed, and, when the file is present, only if its content is that
    of the stage or of the commit; a [create] or [mkdir] only where the
    working tree has nothing. *)
Theorem planner_keeps_local_edits :
  forall (World : Type) (U : Utils) (a : Args) (bases : list string)
         (g : option string) (commit workdir stage : Entry) (o : op)
         (s s' : St World),
    walk_map U a bases g commit workdir stage s = (Ok (Some o), s') ->
    (e_exists stage = true \/ e_exists commit = true) /\
    (op_method o = VStr "delete" ->
     e_exists stage = true /\ e_exists commit = false /\ e_exists workdir = true /\
     src_type stage = Blob /\ src_oid workdir = src_oid stage) /\
    (op_method o = VStr "update" ->
     e_exists stage = true /\ e_exists commit = true /\
     src_type stage = Blob /\ src_type commit = Blob /\
     (e_exists workdir = true ->
      src_oid workdir = src_oid stage \/ src_oid workdir = src_oid commit)) /\
    (op_method o = VStr "create" ->
     e_exists stage = false /\ e_exists commit = true /\ e_exists workdir = false /\
     src_type commit = Blob) /\
    (op_method o = VStr "mkdir" ->
     e_exists stage = false /\ e_exists commit = true /\ e_exists workdir = false /\
     src_type commit = Tree).
Proof.
  intros World U a bases g commit workdir stage o s s' H.
  planner_cases H.
  destruct (e_exists stage) eqn:Es, (e_exists commit) eqn:Ec,
           (e_exists workdir) eqn:Ew; cbn -[toString8] in H.
  all: try (destruct (src_type commit) eqn:Tc; cbn -[toString8] in H).
  all: try (destruct (src_type stage) eqn:Ts; cbn -[toString8] in H).
  all: try (destruct (src_type workdir) eqn:Tw; cbn -[toString8] in H).
  all: split_tests H.
  all: unfold ret, bind, console_log, log in H; cbn -[toString8] in H.
  all: try discriminate H.
  all: injection H as <- _.
  all: split; [auto|].
  all: (split; [|split; [|split]]); intros Hm; try discriminate Hm.
  all: repeat split; auto; try congruence.
  all: intros _; auto.
Qed.

Lemma planner_keeps_local_edits_witness :
  src_type Cases.stale_stage = Blob /\
  src_oid Cases.stale_workdir = src_oid Cases.stale_stage.
Proof.
  destruct (planner_keeps_local_edits Repo.World Repo.utils Cases.args ["."] None
              (Repo.absent "old/x") Cases.stale_workdir Cases.stale_stage
              [VStr "delete"; VStr "old/x"] Cases.here Cases.here)
    as (_ & Hdelete & _).
  - reflexivity.
  - destruct (Hdelete eq_refl) as (_ & _ & _ & H1 & H2). split; assumption.
Defined.

(** Run [map] up to the decision table, for a triple that reaches it. *)
Ltac to_table Hreach :=
  let Hearly := fresh "Hearly" in
  pose proof (walk_map_reaches _ _ _ _ Hreach) as Hearly;
  unfold walk_map;
  match goal with |- context [String.eqb ?p "."] =>
    destruct (String.eqb p "."); [discriminate Hearly|] end;
  rewrite Hearly; clear Hearly;
  unfold bind at 1; rewrite emit_progress_analyzing;
  unfold type, mode, oid, populateStat, populateHash;
  cbn -[toString8].

(** X2. A path that only the commit has (key 010): a tree is planned as
    [mkdir]; a blob as [create] with the oid and the mode of the commit
    entry; a gitlink is logged as unsupported and skipped; any other type
    is planned as an [error] op. *)
Theorem new_entry_planned :
  forall (World : Type) (U : Utils) (a : Args) (bases : list string)
         (g : option string) (commit workdir stage : Entry) (s : St World),
    reaches_table U bases g commit ->
    e_exists stage = false ->
    e_exists commit = true ->
    e_exists workdir = false ->
    walk_map U a bases g commit workdir stage s
    = match src_type commit with
      | Tree =>
          (Ok (Some [VStr "mkdir"; VStr (fullpath commit)]), after_progress a s)
      | Blob =>
          (Ok (Some [VStr "create"; VStr (fullpath commit);
                     src_oid commit; src_mode commit]), after_progress a s)
      | Commit =>
          (Ok None, logged (after_progress a s) submodule_diagnostic)
      | Special =>
          (Ok (Some [VStr "error"; VStr "new entry Unhandled type special"]),
           after_progress a s)
      end.
Proof.
  intros World U a bases g commit workdir stage s Hreach Hs Hc Hw.
  to_table Hreach. rewrite Hs, Hc, Hw.
  destruct (src_type commit); reflexivity.
Qed.

Lemma new_entry_planned_witness :
  walk_map Repo.utils (Repo.default_args "topic") ["."] None
    (Repo.present "d/b" Blob (VStr "100755") (VStr Inputs.oidB))
    (Repo.absent "d/b") (Repo.absent "d/b")
    (Repo.start (Inputs.two_branches Inputs.root_only))
  = (Ok (Some [VStr "create"; VStr "d/b"; VStr Inputs.oidB; VStr "100755"]),
     Repo.start (Inputs.two_branches Inputs.root_only)).
Proof.
  apply (new_entry_planned Repo.World Repo.utils (Repo.default_args "topic") ["."] None
           (Repo.present "d/b" Blob (VStr "100755") (VStr Inputs.oidB))
           (Repo.absent "d/b") (Repo.absent "d/b")
           (Repo.start (Inputs.two_branches Inputs.root_only))).
  - split; [discriminate | exact I].
  - reflexivity.
  - reflexivity.
  - reflexivity.
Defined.

(** X3. A path that the commit adds where the working tree already has
    something, unstaged (key 011): two directories need nothing; two blobs
    are planned as [create-index] exactly when the working-tree file has
    the oid of the commit and, normalized, its mode, and as [conflict]
    otherwise; a file facing a directory, either way, and a file facing a
    gitlink are a [conflict]. *)
Theorem occupied_entry_planned :
  forall (World : Type) (U : Utils) (a : Args) (bases : list string)
         (g : option string) (commit workdir stage : Entry) (s : St World),
    reaches_table U bases g commit ->
    e_exists stage = false ->
    e_exists commit = true ->
    e_exists workdir = true ->
    ~ (src_type commit = Commit /\ src_type workdir = Tree) ->
    exists r : option op,
      walk_map U a bases g commit workdir stage s = (Ok r, after_progress a s) /\
      (src_type commit = Tree -> src_type workdir = Tree -> r = None) /\
      (src_type commit = Blob -> src_type workdir = Blob ->
       (r = Some [VStr "create-index"; VStr (fullpath commit);
                  src_oid commit; src_mode commit]
        <-> src_oid commit = src_oid workdir /\ same_mode U commit workdir) /\
       (~ (src_oid commit = src_oid workdir /\ same_mode U commit workdir) ->
        r = Some [VStr "conflict"; VStr (fullpath commit)])) /\
      (src_type commit = Tree /\ src_type workdir = Blob \/
       src_type commit = Blob /\ src_type workdir = Tree \/
       src_type commit = Commit /\ src_type workdir = Blob ->
       r = Some [VStr "conflict"; VStr (fullpath commit)]).
Proof.
  intros World U a bases g commit workdir stage s Hreach Hs Hc Hw Hnot.
  to_table Hreach. rewrite Hs, Hc, Hw. unfold same_mode.
  destruct (src_type commit) eqn:Tc, (src_type workdir) eqn:Tw;
    cbn -[toString8]; try (exfalso; apply Hnot; split; reflexivity).
  all: try (eexists; split; [reflexivity|];
            repeat split; intros; try discriminate; intuition discriminate).
  (* blob-blob *)
  case_ne (src_oid commit) (src_oid workdir) Ho;
    [|case_ne (src_mode commit)
              (VStr (toString8 (normalizeMode U (src_mode workdir)))) Hm];
    (eexists; split; [reflexivity|]);
    repeat split; intros; try discriminate; try tauto; intuition discriminate.
Qed.

Lemma occupied_entry_planned_witness :
  walk_map Repo.utils Cases.args ["."] None
    Cases.incoming Cases.same_content (Repo.absent "a") Cases.here
  = (Ok (Some [VStr "create-index"; VStr "a"; VStr Inputs.oidA; VStr "100644"]),
     Cases.here).
Proof.
  destruct (occupied_entry_planned Repo.World Repo.utils Cases.args ["."] None
              Cases.incoming Cases.same_content (Repo.absent "a") Cases.here)
    as (r & Hrun & _ & Hblob & _).
  - split; [discriminate | exact I].
  - reflexivity.
  - reflexivity.
  - reflexivity.
  - intros [H _]. discriminate H.
  - rewrite Hrun. f_equal. f_equal.
    apply (proj1 (Hblob eq_refl eq_refl)). split; reflexivity.
Defined.

(** X4. A staged path that the commit no longer has: if the working tree
    has nothing there either (key 100) the index entry is dropped with
    [delete-index], whatever the type; if it has something (key 101), a
    staged directory is planned as [rmdir], and a staged blob as [delete]
    exactly when the working-tree content has the staged oid, as
    [conflict] otherwise. *)
Theorem removed_entry_planned :
  forall (World : Type) (U : Utils) (a : Args) (bases : list string)
         (g : option string) (commit workdir stage : Entry) (s : St World),
    reaches_table U bases g commit ->
    e_exists stage = true ->
    e_exists commit = false ->
    exists r : option op,
      walk_map U a bases g commit workdir stage s = (Ok r, after_progress a s) /\
      (e_exists workdir = false ->
       r = Some [VStr "delete-index"; VStr (fullpath stage)]) /\
      (e_exists workdir = true -> src_type stage = Tree ->
       r = Some [VStr "rmdir"; VStr (fullpath stage)]) /\
      (e_exists workdir = true -> src_type stage = Blob ->
       (r = Some [VStr "delete"; VStr (fullpath stage)]
        <-> src_oid stage = src_oid workdir) /\
       (src_oid stage <> src_oid workdir ->
        r = Some [VStr "conflict"; VStr (fullpath stage)])).
Proof.
  intros World U a bases g commit workdir stage s Hreach Hs Hc.
  to_table Hreach. rewrite Hs, Hc.
  destruct (e_exists workdir); cbn -[toString8].
  - destruct (src_type stage) eqn:Ts; cbn -[toString8].
    2:{ case_ne (src_oid stage) (src_oid workdir) Ho;
          (eexists; split; [reflexivity|]);
          repeat split; intros; try discriminate; try tauto; intuition discriminate. }
    all: eexists; split; [reflexivity|];
      repeat split; intros; try discriminate; intuition discriminate.
  - eexists; split; [reflexivity|].
    repeat split; intros; try discriminate; intuition discriminate.
Qed.

Lemma removed_entry_planned_witness :
  walk_map Repo.utils Cases.args ["."] None
    (Repo.absent "old/x") Cases.stale_workdir Cases.stale_stage Cases.here
  = (Ok (Some [VStr "delete"; VStr "old/x"]), Cases.here).
Proof.
  destruct (removed_entry_planned Repo.World Repo.utils Cases.args ["."] None
              (Repo.absent "old/x") Cases.stale_workdir Cases.stale_stage Cases.here)
    as (r & Hrun & _ & _ & Hblob).
  - split; [discriminate | exact I].
  - reflexivity.
  - reflexivity.
  - rewrite Hrun. f_equal. f_equal.
    apply (proj1 (Hblob eq_refl eq_refl)). reflexivity.
Defined.




(** * Further properties of the operation *)

(** X6. Every failure of the operation reaches the caller tagged
    [git.checkout]; and without a [ref] the operation fails at once with
    MissingRequiredParameterError for the parameter [ref] of [checkout],
    before anything is read or written. *)
Theorem failures_are_tagged :
  forall (World : Type) (U : Utils) (C : Collab World) (a : Args) (s : St World),
    (forall (e : Exn) (s' : St World),
        fastCheckout U C a s = (Throw e, s') -> caller e = Some "git.checkout") /\
    (ref a = None ->
     fastCheckout U C a s
     = (Throw (checkout_error (MissingRequiredParameterError "checkout" "ref")), s)).
Proof.
  intros World U C a s. split.
  - intros e s'. unfold fastCheckout, try_catch.
    match goal with |- (match ?body with _ => _ end) = _ -> _ =>
      destruct body as [[r|e0] s0] end.
    + discriminate.
    + unfold throw. intros H. injection H as <- _. reflexivity.
  - intros Href. unfold fastCheckout, try_catch. rewrite Href. reflexivity.
Qed.

Lemma failures_are_tagged_witness :
  fastCheckout Repo.utils Repo.collab
    (mkArgs "/w" None false "" "origin" None ["."] None false false) Cases.here
  = (Throw (checkout_error (MissingRequiredParameterError "checkout" "ref")), Cases.here).
Proof.
  apply (failures_are_tagged Repo.World Repo.utils Repo.collab
           (mkArgs "/w" None false "" "origin" None ["."] None false false) Cases.here).
  reflexivity.
Defined.

(** X7. Resolution of the ref (lines 130-159).  A ref that resolves
    locally is resolved without any write.  A ref that resolves neither
    locally nor under the remote fails with the error of the second lookup,
    again without any write.  A ref that resolves only under the remote is
    turned into a tracking branch by exactly three writes, in this order:
    [branch.<ref>.remote], [branch.<ref>.merge] and the branch file holding
    the oid and a newline; and a config write that fails stops the
    operation before the branch file is written. *)
Theorem tracking_branch_setup :
  forall (World : Type) (C : Collab World) (a : Args) (gitdir refname : string)
         (s : St World),
    (forall oid, resolve C (world s) gitdir refname = Ok oid ->
                 resolve_oid C a gitdir refname s = (Ok oid, s)) /\
    (forall e e',
        resolve C (world s) gitdir refname = Throw e ->
        resolve C (world s) gitdir (remote a ++ "/" ++ refname) = Throw e' ->
        resolve_oid C a gitdir refname s = (Throw e', s)) /\
    (forall e oid w1 w2 w3,
        resolve C (world s) gitdir refname = Throw e ->
        resolve C (world s) gitdir (remote a ++ "/" ++ refname) = Ok oid ->
        config C gitdir ("branch." ++ refname ++ ".remote") (remote a) (world s)
        = (Ok tt, w1) ->
        config C gitdir ("branch." ++ refname ++ ".merge") ("refs/heads/" ++ refname) w1
        = (Ok tt, w2) ->
        fs_write C (gitdir ++ "/refs/heads/" ++ refname) (oid ++ nl) None w2
        = (Ok tt, w3) ->
        resolve_oid C a gitdir refname s
        = (Ok oid,
           mkSt w3 (trace s ++ tracking_branch_writes a gitdir refname oid) (count s))) /\
    (forall e oid e1 w1,
        resolve C (world s) gitdir refname = Throw e ->
        resolve C (world s) gitdir (remote a ++ "/" ++ refname) = Ok oid ->
        config C gitdir ("branch." ++ refname ++ ".remote") (remote a) (world s)
        = (Throw e1, w1) ->
        resolve_oid C a gitdir refname s
        = (Throw e1,
           logged (mkSt w1 (trace s) (count s))
                  (ConfigSet gitdir ("branch." ++ refname ++ ".remote") (remote a)))).
Proof.
  intros World C a gitdir refname s.
  split; [intros oid H; apply resolve_oid_local, H|].
  split; [|split].
  - intros e e' H1 H2. unfold resolve_oid, try_catch, read at 1. rewrite H1.
    unfold bind at 1, read at 1. rewrite H2. reflexivity.
  - intros e oid w1 w2 w3 H1 H2 Hc1 Hc2 Hw.
    unfold resolve_oid, try_catch, read at 1. rewrite H1.
    unfold bind at 1, read at 1. rewrite H2.
    unfold bind at 1, mutate at 1. cbn [world trace count]. rewrite Hc1.
    unfold bind at 1, mutate at 1. cbn [world trace count]. rewrite Hc2.
    unfold bind at 1, mutate at 1. cbn [world trace count]. rewrite Hw.
    unfold ret, tracking_branch_writes. rewrite <- !app_assoc. reflexivity.
  - intros e oid e1 w1 H1 H2 Hc1.
    unfold resolve_oid, try_catch, read at 1. rewrite H1.
    unfold bind at 1, read at 1. rewrite H2.
    unfold bind at 1, mutate at 1. cbn [world trace count]. rewrite Hc1.
    reflexivity.
Qed.

Lemma tracking_branch_setup_witness :
  trace (snd (resolve_oid Repo.collab Cases.args "/w/.git" "feature" Cases.here))
  = tracking_branch_writes Cases.args "/w/.git" "feature" Inputs.oidB.
Proof.
  destruct (tracking_branch_setup Repo.World Repo.collab Cases.args "/w/.git" "feature"
              Cases.here) as (_ & _ & Hsetup & _).
  erewrite Hsetup; cycle 1.
  - vm_compute. reflexivity.
  - vm_compute. reflexivity.
  - reflexivity.
  - reflexivity.
  - reflexivity.
  - reflexivity.
Defined.



Lemma report_passed {World} (ops : list op) (s s' : St World) :
  report ops s = (Ok tt, s') -> conflicts ops = [] /\ errors ops = [] /\ s' = s.
Proof.
  unfold report. destruct (conflicts ops); simpl; [|discriminate].
  destruct (errors ops); simpl; [|discriminate].
  intros H. injection H as <-. auto.
Qed.

Lemma update_HEAD_done {World} (C : Collab World) (gitdir refname oid : string)
    (st s' : St World) :
  update_HEAD C gitdir refname oid st = (Ok tt, s') ->
  exists fullRef,
    expand C (world st) gitdir refname = Ok fullRef /\
    trace s' = (trace st ++ [head_write gitdir fullRef oid])%list.
Proof.
  unfold update_HEAD, bind, read.
  destruct (expand C (world st) gitdir refname) as [fullRef|e]; [|discriminate].
  unfold mutate. destruct (fs_write C _ _ None (world st)) as [r w'].
  intros H. injection H as _ <-. exists fullRef. split; reflexivity.
Qed.

(** X9. What a return of the operation tells the caller.  If it returns
    a plan, then it was a dry run with noCheckout unset, and the plan holds
    no conflict op and no error op.  If it returns nothing, then the last
    thing it did was to write HEAD, with [ref: <fullref>] or an oid, and a
    newline, as content. *)
Theorem return_values :
  forall (World : Type) (U : Utils) (C : Collab World) (a : Args) (s s' : St World),
    (forall ops : list op,
        fastCheckout U C a s = (Ok (Some ops), s') ->
        dryRun a = true /\ noCheckout a = false /\
        conflicts ops = [] /\ errors ops = []) /\
    (fastCheckout U C a s = (Ok None, s') ->
     exists (before : list Effect) (fullRef oid : string),
       trace s' = (before ++ [head_write (gitdir_of U a) fullRef oid])%list).
Proof.
  intros World U C a s s'.
  assert (Hinv : forall r, fastCheckout U C a s = (Ok r, s') ->
            exists refname oid HEAD s1,
              after_resolve U C a refname oid HEAD (counting_from_zero s1) = (Ok r, s')).
  { intros r H.
    destruct (ref a) as [refname|] eqn:Href.
    2:{ unfold fastCheckout, try_catch in H. rewrite Href in H. discriminate H. }
    destruct (resolve_oid C a (gitdir_of U a) refname s) as [[oid|e] s1] eqn:Hoid.
    2:{ unfold fastCheckout, try_catch in H. rewrite Href in H.
        destruct (pattern_setup U (pattern a)).
        unfold bind at 1 in H. rewrite Hoid in H. discriminate H. }
    destruct (resolve C (world s1) (gitdir_of U a) "HEAD") as [HEAD|e] eqn:Hhead.
    2:{ unfold fastCheckout, try_catch in H. rewrite Href in H.
        destruct (pattern_setup U (pattern a)).
        unfold bind at 1 in H. rewrite Hoid in H.
        unfold bind at 1, read at 1 in H. rewrite Hhead in H. discriminate H. }
    rewrite (fastCheckout_resolved U C a refname oid HEAD s s1 Href Hoid Hhead) in H.
    exists refname, oid, HEAD, s1.
    unfold tagged, try_catch in H.
    destruct (after_resolve U C a refname oid HEAD (counting_from_zero s1))
      as [[r0|e] s2]; [exact H | discriminate H]. }
  split.
  - intros ops H. destruct (Hinv _ H) as (refname & oid & HEAD & s1 & Hrun).
    unfold after_resolve in Hrun. unfold bind at 1 in Hrun.
    destruct (negb (noCheckout a) && negb (String.eqb HEAD oid)) eqn:Hwalk.
    + destruct (update_workdir U C a (gitdir_of U a) refname (bases_of U a)
                  (globrex_of U a) oid (counting_from_zero s1))
        as [[[plan|]|e] s2] eqn:Hup; [| |discriminate Hrun].
      * injection Hrun as <- <-.
        pose proof (update_workdir_result _ _ _ _ _ _ _ _ _ _ _ Hup) as Hdry.
        apply andb_true_iff in Hwalk as [Hno _]. apply negb_true_iff in Hno.
        split; [exact Hdry|]. split; [exact Hno|].
        unfold update_workdir in Hup. unfold bind at 1 in Hup.
        destruct (analyze U C a (gitdir_of U a) refname (bases_of U a)
                    (globrex_of U a) oid (counting_from_zero s1))
          as [[ops0|e] s3]; [|discriminate Hup].
        unfold bind at 1 in Hup.
        destruct (report ops0 s3) as [[[]|e] s4] eqn:Hrep; [|discriminate Hup].
        apply report_passed in Hrep as (Hc & He & _).
        rewrite Hdry in Hup. injection Hup as <- _. auto.
      * unfold bind in Hrun.
        destruct (update_HEAD C (gitdir_of U a) refname oid s2) as [[u|e] s3];
          discriminate Hrun.
    + unfold ret at 1, bind in Hrun.
      destruct (update_HEAD C (gitdir_of U a) refname oid (counting_from_zero s1))
        as [[u|e] s3]; discriminate Hrun.
  - intros H. destruct (Hinv _ H) as (refname & oid & HEAD & s1 & Hrun).
    unfold after_resolve in Hrun. unfold bind at 1 in Hrun.
    destruct ((if negb (noCheckout a) && negb (String.eqb HEAD oid)
               then update_workdir U C a (gitdir_of U a) refname (bases_of U a)
                      (globrex_of U a) oid
               else ret None) (counting_from_zero s1))
      as [[[plan|]|e] s2]; [discriminate Hrun | | discriminate Hrun].
    unfold bind in Hrun.
    destruct (update_HEAD C (gitdir_of U a) refname oid s2) as [[[]|e] s3] eqn:Hhead;
      [|discriminate Hrun].
    injection Hrun as <-.
    apply update_HEAD_done in Hhead as (fullRef & _ & Ht).
    exists (trace s2), fullRef, oid. exact Ht.
Qed.

Lemma return_values_witness :
  exists (before : list Effect) (fullRef oid : string),
    trace (snd (fastCheckout Repo.utils Repo.collab Cases.args
                  (Repo.start (Inputs.two_branches Inputs.fresh_and_stale))))
    = (before ++ [head_write "/w/.git" fullRef oid])%list.
Proof.
  apply (return_values Repo.World Repo.utils Repo.collab Cases.args
           (Repo.start (Inputs.two_branches Inputs.fresh_and_stale))
           (snd (fastCheckout Repo.utils Repo.collab Cases.args
                   (Repo.start (Inputs.two_branches Inputs.fresh_and_stale))))).
  vm_compute. reflexivity.
Defined.

(** * Properties of the applier *)

(** ** Computations that append to the trace *)

Lemma numbered_wider (lo hi lo' hi' : nat) (e : Effect) :
  (lo' <= lo)%nat -> (hi <= hi')%nat -> numbered lo hi e -> numbered lo' hi' e.
Proof. destruct e; simpl; try tauto. intros ? ? [? ?]. split; lia. Qed.

Lemma appends_ret {World A} (P : Effect -> Prop) (x : A) :
  appends (World := World) P 0 (ret x).
Proof.
  intros s. exists []. cbn. rewrite app_nil_r.
  repeat split; try constructor; lia.
Qed.

Lemma appends_throw {World A} (P : Effect -> Prop) (e : Exn) :
  appends (World := World) (A := A) P 0 (throw e).
Proof.
  intros s. exists []. cbn. rewrite app_nil_r.
  repeat split; try constructor; lia.
Qed.

Lemma appends_read {World A} (P : Effect -> Prop) (f : World -> Res A) :
  appends P 0 (read f).
Proof.
  intros s. exists []. cbn. rewrite app_nil_r.
  repeat split; try constructor; lia.
Qed.

Lemma appends_one {World} (P : Effect -> Prop) (e : Effect) (m : M World unit) :
  P e -> numbered 0 0 e ->
  (forall s, trace (snd (m s)) = (trace s ++ [e])%list /\ count (snd (m s)) = count s) ->
  appends P 0 m.
Proof.
  intros HP Hn Hm s. destruct (Hm s) as [Ht Hc]. exists [e].
  rewrite Ht, Hc. repeat split; try lia; constructor; auto.
  destruct e; simpl in *; try tauto. lia.
Qed.

Lemma appends_log {World} (P : Effect -> Prop) (e : Effect) :
  P e -> numbered 0 0 e -> appends (World := World) P 0 (log e).
Proof. intros HP Hn. apply (appends_one P e); auto. Qed.

Lemma appends_mutate {World} (P : Effect -> Prop) (e : Effect)
    (f : World -> Res unit * World) :
  P e -> numbered 0 0 e -> appends P 0 (mutate e f).
Proof.
  intros HP Hn. apply (appends_one P e); auto.
  intros s. unfold mutate. destruct (f (world s)). split; reflexivity.
Qed.

Lemma appends_weaken {World A} (P P' : Effect -> Prop) (k k' : nat) (m : M World A) :
  (forall e, P e -> P' e) -> (k <= k')%nat -> appends P k m -> appends P' k' m.
Proof.
  intros HP Hk Hm s. destruct (Hm s) as (evs & Ht & Hall & Hlo & Hhi & Hnum).
  exists evs. repeat split; auto; try lia.
  eapply Forall_impl; [exact Hall|]. auto.
Qed.

Lemma appends_bind {World A B} (P : Effect -> Prop) (k1 k2 : nat)
    (m : M World A) (f : A -> M World B) :
  appends P k1 m -> (forall x, appends P k2 (f x)) -> appends P (k1 + k2) (bind m f).
Proof.
  intros Hm Hf s. destruct (Hm s) as (ev1 & Ht1 & Hall1 & Hlo1 & Hhi1 & Hnum1).
  unfold bind. destruct (m s) as [[x|e] s1]; cbn [snd] in *.
  - destruct (Hf x s1) as (ev2 & Ht2 & Hall2 & Hlo2 & Hhi2 & Hnum2).
    exists (ev1 ++ ev2)%list. rewrite Ht2, Ht1, <- app_assoc.
    split; [reflexivity|]. split; [apply Forall_app; auto|].
    split; [lia|]. split; [lia|].
    apply Forall_app. split.
    + eapply Forall_impl; [exact Hnum1|].
      intros e0. apply numbered_wider; lia.
    + eapply Forall_impl; [exact Hnum2|].
      intros e0. apply numbered_wider; lia.
  - exists ev1. repeat split; auto; lia.
Qed.

Lemma appends_try_catch {World A} (P : Effect -> Prop) (k1 k2 : nat)
    (m : M World A) (h : Exn -> M World A) :
  appends P k1 m -> (forall e, appends P k2 (h e)) ->
  appends P (k1 + k2) (try_catch m h).
Proof.
  intros Hm Hh s. destruct (Hm s) as (ev1 & Ht1 & Hall1 & Hlo1 & Hhi1 & Hnum1).
  unfold try_catch. destruct (m s) as [[x|e] s1]; cbn [snd] in *.
  - exists ev1. repeat split; auto; lia.
  - destruct (Hh e s1) as (ev2 & Ht2 & Hall2 & Hlo2 & Hhi2 & Hnum2).
    exists (ev1 ++ ev2)%list. rewrite Ht2, Ht1, <- app_assoc.
    split; [reflexivity|]. split; [apply Forall_app; auto|].
    split; [lia|]. split; [lia|].
    apply Forall_app. split.
    + eapply Forall_impl; [exact Hnum1|].
      intros e0. apply numbered_wider; lia.
    + eapply Forall_impl; [exact Hnum2|].
      intros e0. apply numbered_wider; lia.
Qed.

Lemma promise_all_cons {World} (t : M World unit) (rest : list (M World unit))
    (s : St World) :
  snd (promise_all (t :: rest) s) = snd (promise_all rest (snd (t s))).
Proof. cbn [promise_all]. destruct (t s) as [[u|e] s1]; reflexivity. Qed.

Lemma appends_promise_all {World} (P : Effect -> Prop) (tasks : list (M World unit)) :
  (forall t, In t tasks -> appends P 1 t) ->
  appends P (length tasks) (promise_all tasks).
Proof.
  induction tasks as [|t rest IH]; intros Hall.
  - apply (appends_ret (World := World) P tt).
  - intros s. rewrite promise_all_cons.
    destruct (Hall t (or_introl eq_refl) s) as (ev1 & Ht1 & Hall1 & Hlo1 & Hhi1 & Hnum1).
    destruct (IH (fun t' Ht' => Hall t' (or_intror Ht')) (snd (t s)))
      as (ev2 & Ht2 & Hall2 & Hlo2 & Hhi2 & Hnum2).
    exists (ev1 ++ ev2)%list. rewrite Ht2, Ht1, <- app_assoc.
    split; [reflexivity|]. split; [apply Forall_app; auto|].
    cbn [length]. split; [lia|]. split; [lia|].
    apply Forall_app. split.
    + eapply Forall_impl; [exact Hnum1|].
      intros e0. apply numbered_wider; lia.
    + eapply Forall_impl; [exact Hnum2|].
      intros e0. apply numbered_wider; lia.
Qed.

Lemma appends_emit_progress {World} (P : Effect -> Prop) (a : Args) (n : nat) :
  (forall name p, updating a n name p -> P (Emit name p)) ->
  appends (World := World) P 1 (emit_progress a "Updating workdir" (Some n)).
Proof.
  intros HP s. unfold emit_progress. destruct (emitter a).
  - exists [Emit (emitterPrefix a ++ "progress")
                 (mkProgress "Updating workdir" (S (count s)) (Some n))].
    cbn. split; [reflexivity|]. split.
    + constructor; [|constructor]. apply HP. repeat split.
    + split; [lia|]. split; [lia|]. constructor; [|constructor]. cbn. lia.
  - exists []. cbn. rewrite app_nil_r. repeat split; try constructor; lia.
Qed.

(** ** The four phases *)

Lemma in_filtered_tasks {World} (f : op -> M World unit) (p : op -> bool)
    (ops : list op) (t : M World unit) :
  In t (List.map f (List.filter p ops)) ->
  exists o, In o ops /\ p o = true /\ t = f o.
Proof.
  intros Hin. apply in_map_iff in Hin as (o & <- & Ho).
  apply List.filter_In in Ho as [Ho Hp]. exists o. auto.
Qed.

Lemma delete_task_appends {World} (C : Collab World) (a : Args) (gitdir : string)
    (n : nat) (ops : list op) (o : op) :
  In o ops -> in_phase1 o = true ->
  appends (phase1_effect a gitdir n ops) 1 (delete_task C a n o).
Proof.
  intros Hin Hp. unfold delete_task.
  apply (appends_bind _ 0 1).
  - destruct (strict_eq (op_method o) (VStr "delete")) eqn:Hd.
    + apply appends_mutate; [|exact I]. exists o. auto.
    + apply appends_ret.
  - intros _. apply (appends_bind _ 0 1).
    + apply appends_mutate; [|exact I]. exists o. auto.
    + intros _. apply appends_emit_progress. auto.
Qed.

Lemma phase1_appends {World} (C : Collab World) (a : Args) (gitdir : string)
    (n : nat) (ops : list op) :
  appends (phase1_effect a gitdir n ops) (length (List.filter in_phase1 ops))
    (acquire (gitdir ++ "/index")
       (promise_all (List.map (delete_task C a n) (List.filter in_phase1 ops)))).
Proof.
  unfold acquire.
  apply appends_weaken with (P := phase1_effect a gitdir n ops)
                            (k := 0 + (length (List.filter in_phase1 ops) + 0));
    [auto | lia |].
  apply appends_bind; [apply appends_log; [reflexivity | exact I]|].
  intros _. apply appends_bind; [|intros _; apply appends_log; [reflexivity | exact I]].
  rewrite <- (List.length_map (delete_task C a n)).
  apply appends_promise_all. intros t Ht.
  apply in_filtered_tasks in Ht as (o & Hin & Hp & ->).
  apply delete_task_appends; assumption.
Qed.

Lemma phase2_appends {World} (C : Collab World) (a : Args) (n : nat)
    (ops l : list op) :
  (forall o, In o l -> In o ops) ->
  appends (phase2_effect a n ops) (length (List.filter (is_method "rmdir") l))
    (rmdir_loop C a n l).
Proof.
  induction l as [|o l IH]; intros Hsub.
  - apply (appends_ret (World := World) _ tt).
  - cbn [rmdir_loop List.filter]. unfold is_method at 1.
    destruct (strict_eq (op_method o) (VStr "rmdir")) eqn:Hr.
    + cbn [length]. apply (appends_bind _ 1 _).
      * apply (appends_try_catch _ 1 0).
        -- apply (appends_bind _ 0 1).
           ++ apply appends_mutate; [|exact I].
              exists o. split; [apply Hsub; left; reflexivity|]. split; [exact Hr|].
              reflexivity.
           ++ intros _. apply appends_emit_progress. auto.
        -- intros e. destruct (String.eqb (err_code (err e)) "ENOTEMPTY").
           ++ apply appends_log; exact I.
           ++ apply appends_throw.
      * intros _. apply IH. intros o' Ho'. apply Hsub. right. exact Ho'.
    + apply (appends_bind _ 0 _); [apply appends_ret|].
      intros _. apply IH. intros o' Ho'. apply Hsub. right. exact Ho'.
Qed.

Lemma phase3_appends {World} (C : Collab World) (a : Args) (n : nat) (ops : list op) :
  appends (phase3_effect a n ops) (length (List.filter (is_method "mkdir") ops))
    (promise_all (List.map (mkdir_task C a n) (List.filter (is_method "mkdir") ops))).
Proof.
  rewrite <- (List.length_map (mkdir_task C a n)).
  apply appends_promise_all. intros t Ht.
  apply in_filtered_tasks in Ht as (o & Hin & Hp & ->).
  unfold mkdir_task. apply (appends_bind _ 0 1).
  - apply appends_mutate; [|exact I]. exists o. auto.
  - intros _. apply appends_emit_progress. auto.
Qed.

Lemma write_task_appends {World} (C : Collab World) (a : Args) (gitdir : string)
    (n : nat) (ops : list op) (o : op) :
  In o ops -> in_phase4 o = true ->
  appends (phase4_effect a gitdir n ops) 1 (write_task C a gitdir n o).
Proof.
  intros Hin Hp. unfold write_task.
  apply (appends_try_catch _ 1 0); [|intros e; apply appends_log; exact I].
  apply (appends_bind _ 0 1).
  - destruct (strict_ne (op_method o) (VStr "create-index")) eqn:Hci; [|apply appends_ret].
    assert (Hnot : is_method "create-index" o = false).
    { unfold is_method. unfold strict_ne in Hci. apply negb_true_iff in Hci. exact Hci. }
    apply (appends_bind _ 0 0); [apply appends_read|].
    intros object. apply (appends_bind _ 0 0).
    + destruct (truthy (op_chmod o)) eqn:Hch; [|apply appends_ret].
      apply appends_mutate; [|exact I]. exists o. auto.
    + intros _. rewrite !strict_eq_decide.
      repeat case_bool_decide.
      * apply appends_mutate; [|exact I]. exists o. auto 10.
      * apply appends_mutate; [|exact I]. exists o. auto 10.
      * apply appends_mutate; [|exact I]. exists o. auto 10.
      * apply appends_throw.
  - intros _. apply (appends_bind _ 0 1); [apply appends_read|].
    intros stats. apply (appends_bind _ 0 1).
    + apply appends_mutate; [|exact I]. exists o. auto.
    + intros _. apply appends_emit_progress. auto.
Qed.

Lemma phase4_appends {World} (C : Collab World) (a : Args) (gitdir : string)
    (n : nat) (ops : list op) :
  appends (phase4_effect a gitdir n ops) (length (List.filter in_phase4 ops))
    (acquire (gitdir ++ "/index")
       (promise_all (List.map (write_task C a gitdir n) (List.filter in_phase4 ops)))).
Proof.
  unfold acquire.
  apply appends_weaken with (P := phase4_effect a gitdir n ops)
                            (k := 0 + (length (List.filter in_phase4 ops) + 0));
    [auto | lia |].
  apply appends_bind; [apply appends_log; [reflexivity | exact I]|].
  intros _. apply appends_bind; [|intros _; apply appends_log; [reflexivity | exact I]].
  rewrite <- (List.length_map (write_task C a gitdir n)).
  apply appends_promise_all. intros t Ht.
  apply in_filtered_tasks in Ht as (o & Hin & Hp & ->).
  apply write_task_appends; assumption.
Qed.

Lemma apply_phases_eq {World} (C : Collab World) (a : Args) (gitdir : string)
    (n : nat) (ops : list op) :
  apply_phases C a gitdir n ops
  = (acquire (gitdir ++ "/index")
       (promise_all (List.map (delete_task C a n) (List.filter in_phase1 ops))) ;;
     rmdir_loop C a n ops ;;
     promise_all (List.map (mkdir_task C a n) (List.filter (is_method "mkdir") ops)) ;;
     acquire (gitdir ++ "/index")
       (promise_all (List.map (write_task C a gitdir n) (List.filter in_phase4 ops)))).
Proof. reflexivity. Qed.

Lemma bind_trace {World A B} (m : M World A) (k : A -> M World B) (s : St World)
    (ev1 : list Effect) (Q : list Effect -> Prop) :
  trace (snd (m s)) = (trace s ++ ev1)%list ->
  Q [] ->
  (forall x s1, exists ev2, trace (snd (k x s1)) = (trace s1 ++ ev2)%list /\ Q ev2) ->
  exists ev2, trace (snd (bind m k s)) = (trace s ++ ev1 ++ ev2)%list /\ Q ev2.
Proof.
  intros Ht Hnil Hk. unfold bind. destruct (m s) as [[x|e] s1]; cbn [snd] in *.
  - destruct (Hk x s1) as (ev2 & Ht2 & HQ). exists ev2.
    rewrite Ht2, Ht, <- app_assoc. auto.
  - exists []. rewrite app_nil_r. auto.
Qed.

(** X10. The second pass runs in four phases, and every effect it has
    is accounted for by an op of the plan.  Its effects come in four
    consecutive runs.  The first holds only the lock on the index, the
    removal of the file of a [delete] op, the removal of the index entry of
    a [delete] or [delete-index] op, and progress events; the second only
    the [rmdir] of an [rmdir] op, a console message and progress events;
    the third only the [mkdir] of an [mkdir] op and progress events; the
    fourth only the lock on the index and, for [create], [update] and
    [create-index] ops, the removal of a file before a chmod, the write
    that the declared mode calls for, the insertion into the index, console
    messages and progress events.  So no file is written before every
    directory is made, and no directory is removed before every planned
    deletion of a file; and the config is never written. *)
Theorem four_phases :
  forall (World : Type) (C : Collab World) (a : Args) (gitdir : string)
         (n : nat) (ops : list op) (s : St World),
    exists e1 e2 e3 e4 : list Effect,
      trace (snd (apply_phases C a gitdir n ops s))
      = (trace s ++ e1 ++ e2 ++ e3 ++ e4)%list /\
      Forall (phase1_effect a gitdir n ops) e1 /\
      Forall (phase2_effect a n ops) e2 /\
      Forall (phase3_effect a n ops) e3 /\
      Forall (phase4_effect a gitdir n ops) e4.
Proof.
  intros World C a gitdir n ops s. rewrite apply_phases_eq.
  destruct (phase1_appends C a gitdir n ops s) as (e1 & Ht1 & H1 & _).
  exists e1.
  destruct (bind_trace _
              (fun _ : unit =>
                 rmdir_loop C a n ops ;;
                 promise_all (List.map (mkdir_task C a n)
                                (List.filter (is_method "mkdir") ops)) ;;
                 acquire (gitdir ++ "/index")
                   (promise_all (List.map (write_task C a gitdir n)
                                   (List.filter in_phase4 ops))))
              s e1
              (fun rest => exists e2 e3 e4, rest = (e2 ++ e3 ++ e4)%list /\
                 Forall (phase2_effect a n ops) e2 /\
                 Forall (phase3_effect a n ops) e3 /\
                 Forall (phase4_effect a gitdir n ops) e4) Ht1)
    as (rest & Ht & e2 & e3 & e4 & Hrest & F2 & F3 & F4).
  - exists [], [], []. repeat split; auto.
  - intros _ s1.
    destruct (phase2_appends C a n ops ops (fun o H => H) s1) as (e2 & Ht2 & H2 & _).
    destruct (bind_trace _
                (fun _ : unit =>
                   promise_all (List.map (mkdir_task C a n)
                                  (List.filter (is_method "mkdir") ops)) ;;
                   acquire (gitdir ++ "/index")
                     (promise_all (List.map (write_task C a gitdir n)
                                     (List.filter in_phase4 ops))))
                s1 e2
                (fun rest => exists e3 e4, rest = (e3 ++ e4)%list /\
                   Forall (phase3_effect a n ops) e3 /\
                   Forall (phase4_effect a gitdir n ops) e4) Ht2)
      as (rest & Ht & e3 & e4 & Hrest & F3 & F4).
    + exists [], []. repeat split; auto.
    + intros _ s2.
      destruct (phase3_appends C a n ops s2) as (e3 & Ht3 & H3 & _).
      destruct (bind_trace _
                  (fun _ : unit =>
                     acquire (gitdir ++ "/index")
                       (promise_all (List.map (write_task C a gitdir n)
                                       (List.filter in_phase4 ops))))
                  s2 e3
                  (fun e4 => Forall (phase4_effect a gitdir n ops) e4) Ht3)
        as (e4 & Ht & F4).
      * constructor.
      * intros _ s3.
        destruct (phase4_appends C a gitdir n ops s3) as (e4 & Ht4 & H4 & _).
        exists e4. auto.
      * exists (e3 ++ e4)%list. split; [exact Ht|]. exists e3, e4. auto.
    + subst rest. exists (e2 ++ e3 ++ e4)%list. split; [exact Ht|].
      exists e2, e3, e4. auto.
  - subst rest. exists e2, e3, e4. auto.
Qed.

Lemma one_phase_per_op (ops : list op) :
  (length (List.filter in_phase1 ops)
   + (length (List.filter (is_method "rmdir") ops)
      + (length (List.filter (is_method "mkdir") ops)
         + length (List.filter in_phase4 ops))) <= length ops)%nat.
Proof.
  induction ops as [|o ops IH]; [simpl; lia|].
  cbn [List.filter].
  destruct (in_phase1 o) eqn:E1, (is_method "rmdir" o) eqn:E2,
           (is_method "mkdir" o) eqn:E3, (in_phase4 o) eqn:E4;
    cbn [length]; try lia; exfalso;
    unfold in_phase1, in_phase4, is_method, strict_eq in E1, E2, E3, E4;
    repeat case_bool_decide; simpl in *; congruence.
Qed.

Lemma apply_phases_appends {World} (C : Collab World) (a : Args) (gitdir : string)
    (n : nat) (ops : list op) :
  appends (applier_effect a gitdir n ops) (length ops) (apply_phases C a gitdir n ops).
Proof.
  rewrite apply_phases_eq.
  eapply appends_weaken; [intros e H; exact H | apply (one_phase_per_op ops) |].
  apply appends_bind.
  { eapply appends_weaken; [|reflexivity | apply phase1_appends].
    intros e H. left. exact H. }
  intros _. apply appends_bind.
  { eapply appends_weaken; [|reflexivity | apply (phase2_appends C a n ops ops); auto].
    intros e H. right. left. exact H. }
  intros _. apply appends_bind.
  { eapply appends_weaken; [|reflexivity | apply phase3_appends].
    intros e H. right. right. left. exact H. }
  intros _.
  eapply appends_weaken; [|reflexivity | apply phase4_appends].
  intros e H. right. right. right. exact H.
Qed.

(** X11. The progress of the second pass stays within its total: the
    counter starts from zero and ends at most at the number of ops of the
    plan, and every progress event is named [<prefix>progress], has phase
    [Updating workdir], carries that number as total and a [loaded] between
    1 and it. *)
Theorem progress_within_total :
  forall (World : Type) (C : Collab World) (a : Args) (gitdir : string)
         (ops : list op) (s : St World),
    exists evs : list Effect,
      trace (snd (apply_plan C a gitdir ops s)) = (trace s ++ evs)%list /\
      (count (snd (apply_plan C a gitdir ops s)) <= length ops)%nat /\
      forall (name : string) (p : Progress),
        In (Emit name p) evs ->
        name = emitterPrefix a ++ "progress" /\
        phase p = "Updating workdir" /\
        total p = Some (length ops) /\
        (1 <= loaded p)%nat /\ (loaded p <= length ops)%nat.
Proof.
  intros World C a gitdir ops s.
  change (apply_plan C a gitdir ops s)
    with (apply_phases C a gitdir (length ops) ops (mkSt (world s) (trace s) 0)).
  destruct (apply_phases_appends C a gitdir (length ops) ops
              (mkSt (world s) (trace s) 0))
    as (evs & Ht & Hall & _ & Hhi & Hnum).
  cbn [trace count] in Ht, Hhi, Hnum. exists evs.
  split; [exact Ht|]. split; [lia|].
  intros name p Hin.
  rewrite Forall_forall in Hall, Hnum.
  apply list_elem_of_In in Hin.
  specialize (Hall _ Hin). specialize (Hnum _ Hin). cbn in Hnum.
  assert (Hup : updating a (length ops) name p).
  { destruct Hall as [H | [H | [H | H]]]; exact H. }
  destruct Hup as (Hn & Hp & Htot). repeat split; auto; lia.
Qed.

(** ** Directories that cannot be removed *)

(** X12. Phase 2 tolerates a directory that is not empty, and nothing
    else (lines 433-453).  If every failure of [rmdir] on a directory of
    the plan has code ENOTEMPTY, the phase ends normally.  For one [rmdir]
    op whose [rmdir] fails: with code ENOTEMPTY a message is written to the
    console, no progress is counted for the op and the loop goes on with
    the next op; with any other code the phase fails with that error at
    once, and no later op of the plan is tried. *)
Theorem rmdir_tolerates_not_empty :
  forall (World : Type) (C : Collab World) (a : Args) (n : nat),
    (forall (ops : list op) (s : St World),
        (forall o e w w', In o ops ->
            fs_rmdir C (filepath_of a o) w = (Throw e, w') ->
            err_code (err e) = "ENOTEMPTY") ->
        fst (rmdir_loop C a n ops s) = Ok tt) /\
    (forall (o : op) (rest : list op) (s : St World) (e : Exn) (w' : World),
        is_method "rmdir" o = true ->
        fs_rmdir C (filepath_of a o) (world s) = (Throw e, w') ->
        (err_code (err e) = "ENOTEMPTY" ->
         rmdir_loop C a n (o :: rest) s
         = rmdir_loop C a n rest
             (mkSt w'
                (trace s ++ [FsRmdir (filepath_of a o);
                             ConsoleLog (LogText ("Did not delete "
                                                  ++ to_str (op_fullpath o)
                                                  ++ " because directory is not empty"))])
                (count s))) /\
        (err_code (err e) <> "ENOTEMPTY" ->
         rmdir_loop C a n (o :: rest) s
         = (Throw e, mkSt w' (trace s ++ [FsRmdir (filepath_of a o)]) (count s)))).
Proof.
  intros World C a n. split.
  - induction ops as [|o ops IH]; intros s Hall; [reflexivity|].
    assert (Hrest : forall s', fst (rmdir_loop C a n ops s') = Ok tt).
    { intros s'. apply IH. intros o' e w w' Hin. apply Hall. right. exact Hin. }
    cbn [rmdir_loop]. unfold bind at 1.
    destruct (strict_eq (op_method o) (VStr "rmdir")); [|apply Hrest].
    unfold try_catch, bind, mutate.
    fold (filepath_of a o).
    destruct (fs_rmdir C (filepath_of a o) (world s)) as [[u|e] w'] eqn:Hfs.
    + unfold emit_progress. destruct (emitter a); cbn; apply Hrest.
    + rewrite (Hall o e (world s) w' (or_introl eq_refl) Hfs). cbn. apply Hrest.
  - intros o rest s e w' Hm Hfs. unfold is_method in Hm.
    split; intros Hcode.
    + cbn [rmdir_loop]. unfold bind at 1. rewrite Hm.
      unfold try_catch, bind, mutate. fold (filepath_of a o). rewrite Hfs, Hcode.
      cbn. rewrite <- app_assoc. reflexivity.
    + cbn [rmdir_loop]. unfold bind at 1. rewrite Hm.
      unfold try_catch, bind, mutate. fold (filepath_of a o). rewrite Hfs.
      destruct (String.eqb_spec (err_code (err e)) "ENOTEMPTY"); [contradiction|].
      reflexivity.
Qed.

Lemma rmdir_tolerates_not_empty_witness :
  fst (rmdir_loop (Cases.stubborn "/w/old" "/w/locked") Cases.args 4
         Cases.four_ops Cases.here) = Ok tt /\
  fst (rmdir_loop (Cases.stubborn "/w/full" "/w/old") Cases.args 4
         [[VStr "rmdir"; VStr "old"]; [VStr "rmdir"; VStr "full"]] Cases.here)
  = Throw (new_error (OtherError "EPERM")).
Proof.
  split.
  - apply (proj1 (rmdir_tolerates_not_empty Repo.World
                    (Cases.stubborn "/w/old" "/w/locked") Cases.args 4)).
    intros o e w w' Hin Hfs.
    destruct Hin as [<- | [<- | [<- | [<- | []]]]];
      vm_compute in Hfs;
      first [discriminate Hfs | injection Hfs as <- _; reflexivity].
  - destruct (proj2 (rmdir_tolerates_not_empty Repo.World
                       (Cases.stubborn "/w/full" "/w/old") Cases.args 4)
                [VStr "rmdir"; VStr "old"] [[VStr "rmdir"; VStr "full"]] Cases.here
                (new_error (OtherError "EPERM")) (world Cases.here))
      as [_ Hstop].
    + reflexivity.
    + vm_compute. reflexivity.
    + assert (Hne : err_code (err (new_error (OtherError "EPERM"))) <> "ENOTEMPTY")
        by (cbn; discriminate).
      exact (f_equal fst (Hstop Hne)).
Defined.

(** ** Files that cannot be written *)

Lemma write_task_ok {World} (C : Collab World) (a : Args) (gitdir : string)
    (n : nat) (o : op) (s : St World) :
  fst (write_task C a gitdir n o s) = Ok tt.
Proof.
  unfold write_task, try_catch.
  match goal with
  | |- fst (match ?m s with _ => _ end) = _ => destruct (m s) as [[[]|e] s']
  end; reflexivity.
Qed.

Lemma promise_all_ok {World} (tasks : list (M World unit)) :
  (forall t s, In t tasks -> fst (t s) = Ok tt) ->
  forall s, fst (promise_all tasks s) = Ok tt.
Proof.
  induction tasks as [|t tasks IH]; intros Hall s; [reflexivity|].
  cbn [promise_all].
  pose proof (Hall t s (or_introl eq_refl)) as Ht.
  destruct (t s) as [[u|e] s']; cbn in Ht; [|discriminate].
  apply IH. intros t' s0 Hin. apply Hall. right. exact Hin.
Qed.

Lemma phase4_ok {World} (C : Collab World) (a : Args) (gitdir : string)
    (n : nat) (ops : list op) (s : St World) :
  fst (acquire (gitdir ++ "/index")
         (promise_all (List.map (write_task C a gitdir n) (List.filter in_phase4 ops)))
         s) = Ok tt.
Proof.
  unfold acquire, bind, log.
  pose proof (promise_all_ok
                (List.map (write_task C a gitdir n) (List.filter in_phase4 ops))) as H.
  match goal with
  | |- fst (match promise_all ?l ?st with _ => _ end) = _ =>
      specialize (H (fun t s0 Hin =>
                       match proj1 (in_map_iff _ _ _) Hin with
                       | ex_intro _ o (conj Heq _) =>
                           eq_ind _ (fun t => fst (t s0) = Ok tt)
                                  (write_task_ok C a gitdir n o s0) _ Heq
                       end) st);
      destruct (promise_all l st) as [[u|e] s']; cbn in H; [reflexivity | discriminate]
  end.
Qed.

(** X13. Phase 4 is best effort (lines 471-533).  Whatever goes wrong
    while a file is written, be it the object that cannot be read, a mode
    that is not one of the three, the write itself or the [lstat], the
    error is written to the console and the task ends normally: the phase
    never fails.  When the object of an op cannot be read, the console
    message is the only effect of the task: no file is written, no index
    entry is inserted and no progress is counted.  So the second pass fails
    only in its first three phases, before any file is written. *)
Theorem write_failures_are_logged :
  forall (World : Type) (C : Collab World) (a : Args) (gitdir : string) (n : nat),
    (forall (o : op) (s : St World), fst (write_task C a gitdir n o s) = Ok tt) /\
    (forall (o : op) (s : St World) (e : Exn),
        is_method "create-index" o = false ->
        readObject C (world s) gitdir (op_oid o) = Throw e ->
        write_task C a gitdir n o s = (Ok tt, logged s (ConsoleLog (LogError e)))) /\
    (forall (ops : list op) (s s' : St World) (e : Exn),
        apply_phases C a gitdir n ops s = (Throw e, s') ->
        (acquire (gitdir ++ "/index")
           (promise_all (List.map (delete_task C a n) (List.filter in_phase1 ops))) ;;
         rmdir_loop C a n ops ;;
         promise_all (List.map (mkdir_task C a n) (List.filter (is_method "mkdir") ops)))
          s = (Throw e, s') /\
        Forall (fun ev => is_file_write ev = false)
               (drop (length (trace s)) (trace s'))).
Proof.
  intros World C a gitdir n. split; [|split].
  - intros o s. apply write_task_ok.
  - intros o s e Hm Hread. unfold write_task, try_catch, bind at 1.
    unfold is_method in Hm. unfold strict_ne. rewrite Hm. cbn [negb].
    unfold bind at 1, read at 1. rewrite Hread. reflexivity.
  - intros ops s s' e. rewrite apply_phases_eq.
    set (p1 := acquire (gitdir ++ "/index")
                 (promise_all (List.map (delete_task C a n) (List.filter in_phase1 ops)))).
    set (p3 := promise_all (List.map (mkdir_task C a n)
                              (List.filter (is_method "mkdir") ops))).
    set (p4 := acquire (gitdir ++ "/index")
                 (promise_all (List.map (write_task C a gitdir n)
                                 (List.filter in_phase4 ops)))).
    intros Hrun.
    assert (Hthree : (p1 ;; rmdir_loop C a n ops ;; p3) s = (Throw e, s')).
    { revert Hrun. unfold bind.
      destruct (p1 s) as [[u1|e1] s1]; [|auto].
      destruct (rmdir_loop C a n ops s1) as [[u2|e2] s2]; [|auto].
      destruct (p3 s2) as [[u3|e3] s3]; [|auto].
      pose proof (phase4_ok C a gitdir n ops s3) as Hok. fold p4 in Hok.
      intros Hrun. rewrite Hrun in Hok. discriminate Hok. }
    split; [exact Hthree|].
    assert (Happ : appends (fun ev => is_file_write ev = false)
                     (length (List.filter in_phase1 ops)
                      + (length (List.filter (is_method "rmdir") ops)
                         + length (List.filter (is_method "mkdir") ops)))
                     (p1 ;; rmdir_loop C a n ops ;; p3)).
    { apply appends_bind.
      { eapply appends_weaken; [|reflexivity | apply (phase1_appends C a gitdir n ops)].
        intros [] H; try contradiction; reflexivity. }
      intros _. apply appends_bind.
      { eapply appends_weaken;
          [|reflexivity | apply (phase2_appends C a n ops ops); auto].
        intros [] H; try contradiction; reflexivity. }
      intros _.
      eapply appends_weaken; [|reflexivity | apply (phase3_appends C a n ops)].
      intros [] H; try contradiction; reflexivity. }
    destruct (Happ s) as (evs & Ht & Hall & _).
    rewrite Hthree in Ht. cbn [snd] in Ht. rewrite Ht.
    rewrite drop_app_length. exact Hall.
Qed.

Lemma write_failures_are_logged_witness :
  write_task Repo.collab Cases.args "/w/.git" 4
    [VStr "create"; VStr "d/b"; VStr "0000000000000000000000000000000000000000";
     VStr "100755"] Cases.here
  = (Ok tt,
     logged Cases.here
       (ConsoleLog (LogError (new_error
          (ReadObjectFail (VStr "0000000000000000000000000000000000000000")))))) /\
  Forall (fun ev => is_file_write ev = false)
    (drop (length (trace Cases.here))
       (trace (snd (apply_phases (Cases.stubborn "/w/full" "/w/old") Cases.args
                      "/w/.git" 4 Cases.four_ops Cases.here)))).
Proof.
  split.
  - apply (proj1 (proj2 (write_failures_are_logged Repo.World Repo.collab Cases.args
                           "/w/.git" 4))).
    + reflexivity.
    + vm_compute. reflexivity.
  - apply (proj2 (proj2 (write_failures_are_logged Repo.World
                           (Cases.stubborn "/w/full" "/w/old") Cases.args
                           "/w/.git" 4))
             Cases.four_ops Cases.here _ (new_error (OtherError "EPERM"))).
    vm_compute. reflexivity.
Defined.

(** ** The pattern *)

Lemma prefix_self_app (p rest : string) : String.prefix p (p ++ rest) = true.
Proof.
  induction p as [|c p IH]; [destruct rest; reflexivity|].
  sapp. simpl. destruct (ascii_dec c c); [exact IH | contradiction].
Qed.

Lemma substring_all (s : string) : String.substring 0 (String.length s) s = s.
Proof. induction s as [|c s IH]; [reflexivity|]. simpl. rewrite IH. reflexivity. Qed.

Lemma substring_after (p rest : string) :
  String.substring (String.length p) (String.length (p ++ rest) - String.length p)
    (p ++ rest) = rest.
Proof.
  induction p as [|c p IH].
  - rewrite append_nil. cbn [String.length]. rewrite Nat.sub_0_r. apply substring_all.
  - sapp. cbn [String.length String.substring Nat.sub]. exact IH.
Qed.

Lemma replace_prefix (p rest : string) : replace (p ++ rest) p = rest.
Proof.
  unfold replace. destruct (String.length (p ++ rest)); cbn [replace_first];
    rewrite prefix_self_app; apply substring_after.
Qed.

(** X14. How a pattern is used (lines 119-128 and 180-190).  A pattern
    made of a literal root and a glob is split: the bases are the
    [filepaths] joined with the root, and the glob alone is what file names
    are matched against.  An empty pattern is no pattern.  The name matched
    for an entry under a base is its path relative to that base.  An entry
    that matches under none of the bases is not planned and counts no
    progress. *)
Theorem pattern_is_relative :
  forall (World : Type) (U : Utils) (a : Args),
    (forall root glob : string,
        root <> "" ->
        pattern a = Some (root ++ "/" ++ glob) ->
        patternRoot U (root ++ "/" ++ glob) = root ->
        bases_of U a = List.map (fun filepath => join U filepath root) (filepaths a) /\
        globrex_of U a = Some glob) /\
    (pattern a = Some "" -> bases_of U a = List.map (fun filepath => join U filepath "")
                                             (filepaths a) /\
                            globrex_of U a = None) /\
    (forall (base g rel : string) (commit : Entry),
        fullpath commit = base ++ "/" ++ rel ->
        pattern_matches U [base] g commit = globrex_test U g rel) /\
    (forall (bases : list string) (g : string) (commit workdir stage : Entry)
            (s : St World),
        (forall base, In base bases ->
            globrex_test U g (replace (fullpath commit) (base ++ "/")) = false) ->
        walk_map U a bases (Some g) commit workdir stage s = (Ok None, s)).
Proof.
  intros World U a. split; [|split; [|split]].
  - intros root glob Hroot Hpat Hpr. unfold bases_of, globrex_of, pattern_setup.
    rewrite Hpat, Hpr.
    destruct (String.eqb_spec (root ++ "/" ++ glob) "") as [He|_].
    { destruct root; [contradiction | discriminate He]. }
    destruct (String.eqb_spec root "") as [He|_]; [contradiction|].
    cbn [negb fst snd]. split; [reflexivity|].
    rewrite <- (append_assoc root "/" glob), replace_prefix. reflexivity.
  - intros Hpat. unfold bases_of, globrex_of, pattern_setup. rewrite Hpat.
    split; reflexivity.
  - intros base g rel commit Hpath. unfold pattern_matches. cbn [existsb].
    rewrite Hpath, <- (append_assoc base "/" rel), replace_prefix.
    apply orb_false_r.
  - intros bases g commit workdir stage s Hnone. unfold walk_map.
    destruct (String.eqb (fullpath commit) "."); [reflexivity|].
    assert (Hpm : pattern_matches U bases g commit = false).
    { unfold pattern_matches. apply not_true_is_false. intros Hex.
      apply existsb_exists in Hex as (base & Hin & Htest).
      rewrite (Hnone base Hin) in Htest. discriminate Htest. }
    rewrite Hpm. reflexivity.
Qed.

Lemma pattern_is_relative_witness :
  (bases_of (Cases.rooted "src")
     (mkArgs "/w" None true "" "origin" (Some "topic") ["."] (Some "src/*") false false)
   = [Repo.join "." "src"] /\
   globrex_of (Cases.rooted "src")
     (mkArgs "/w" None true "" "origin" (Some "topic") ["."] (Some "src/*") false false)
   = Some "*") /\
  pattern_matches Repo.utils ["src"] "a.js" (Repo.present "src/a.js" Blob VUndef VUndef)
  = globrex_test Repo.utils "a.js" "a.js" /\
  walk_map Repo.utils Cases.args ["src"] (Some "a.js")
    (Repo.present "src/b.js" Blob VUndef VUndef) (Repo.absent "src/b.js")
    (Repo.absent "src/b.js") Cases.here
  = (Ok None, Cases.here).
Proof.
  split; [|split].
  - apply (proj1 (pattern_is_relative Repo.World (Cases.rooted "src")
                    (mkArgs "/w" None true "" "origin" (Some "topic") ["."]
                            (Some "src/*") false false)) "src" "*").
    + discriminate.
    + reflexivity.
    + reflexivity.
  - apply (proj1 (proj2 (proj2 (pattern_is_relative Repo.World Repo.utils Cases.args)))
             "src" "a.js" "a.js").
    reflexivity.
  - apply (proj2 (proj2 (proj2 (pattern_is_relative Repo.World Repo.utils Cases.args)))).
    intros base [<- | []]. vm_compute. reflexivity.
Defined.
